(** * PETPVC: the RBV and Iterative Yang drivers

    A shallow embedding of [src/RBV/RBV.cxx] and [src/IterativeYang.cxx].

    Numbers.  The programs compute in C++ [float] and [double].  Here every
    scalar is a real number ([R]): rounding is left out, so an equality below
    is what the program computes in exact arithmetic.  A [float] division by
    zero raises nothing in C++ and yields an infinity or NaN; [R] has neither,
    so the statements below give the value of a quotient only where the
    divisor is not zero.

    Images.  A 3-D image ([itk::Image<float,3>]) is the list of its voxel
    values in raster order; a 4-D mask ([itk::Image<float,4>]) is the list of
    its 3-D channels, one per region, so that the size of its fourth axis is
    the length of that list.

    Libraries.  ITK's filters and VXL's [vnl] are not part of the repository.
    Each is modelled by its contract, on the data above; a filter whose
    [Update()] can raise [itk::ExceptionObject] returns an [Exceptional]
    value.

    Runs.  A run of [main] is its exit status, what it sends to [std::cerr],
    the file it writes and the steps it went through; what it prints on
    [std::cout] is left out. *)

From Stdlib Require Import String Ascii.
From Stdlib Require Import Reals Lra Lia Bool Arith List.
Import ListNotations.

Open Scope R_scope.

(* ================================================================= *)
(** ** ITK: exceptions, images and the filters the drivers use *)

Module ITK.

(** What an [itk::ExceptionObject] reports. *)
Inductive ExceptionObject : Type :=
| InvalidRequestedRegion   (* an extraction outside the image *)
| InputNotSet              (* a filter updated with a null input *)
| SizeMismatch.            (* two inputs that do not share one grid *)

(** A computation that returns a value or throws. *)
Inductive Exceptional (A : Type) : Type :=
| Returns (a : A)
| Throws (e : ExceptionObject).
Arguments Returns {A} a.
Arguments Throws {A} e.

Definition bind {A B : Type} (m : Exceptional A) (k : A -> Exceptional B)
  : Exceptional B :=
  match m with
  | Returns a => k a
  | Throws e => Throws e
  end.

(** [itk::Vector<float,3>]: one component per axis. *)
Definition VectorType : Type := (R * R * R)%type.

(** [itk::Image<float,3>] and [itk::Image<float,4>]. *)
Definition PETImageType : Type := list R.
Definition MaskImageType : Type := list PETImageType.

(** A smart pointer to an image: [None] is the null pointer. *)
Definition Pointer : Type := option PETImageType.

(** The number of dimensions of [MaskImageType], a constant of the type
    ([SizeType::Dimension]). *)
Definition MaskImageDimension : nat := 4.

(** A filter input that is a null pointer makes [Update()] throw. *)
Definition required (p : Pointer) : Exceptional PETImageType :=
  match p with
  | Some img => Returns img
  | None => Throws InputNotSet
  end.

(** The pixel-wise functors. [Div] is total: for a zero divisor ITK's functor
    returns [NumericTraits<float>::max()] instead of dividing. *)
Definition float_max : R := (2 - / 2 ^ 23) * 2 ^ 127.

Definition Mult (a b : R) : R := a * b.
Definition Add2 (a b : R) : R := a + b.
Definition Div (a b : R) : R :=
  if Req_dec_T b 0 then float_max else a / b.

Definition pixelwise (f : R -> R -> R) (a b : PETImageType) : PETImageType :=
  map (fun p => f (fst p) (snd p)) (combine a b).

(** A binary functor filter over two images: both must cover one grid. *)
Definition BinaryFunctorImageFilter (f : R -> R -> R)
    (a b : PETImageType) : Exceptional PETImageType :=
  if Nat.eqb (length a) (length b)
  then Returns (pixelwise f a b)
  else Throws SizeMismatch.

Definition MultiplyFilter := BinaryFunctorImageFilter Mult.
Definition DivideFilter := BinaryFunctorImageFilter Div.
Definition AddFilter := BinaryFunctorImageFilter Add2.

(** [MultiplyImageFilter] with a constant as its second input. *)
Definition MultiplyByConstant (a : PETImageType) (c : R) : PETImageType :=
  map (fun x => Mult x c) a.

(** [StatisticsImageFilter::GetSum]: the voxels accumulated in raster
    order. *)
Definition GetSum (a : PETImageType) : R := fold_left Rplus a 0.

(** [ExtractImageFilter] with the region that starts at [(0,0,0,channel)]
    and has size 0 along the fourth axis: the 3-D volume of one channel. *)
Definition ExtractFilter (maskImage : MaskImageType) (channel : nat)
  : Exceptional PETImageType :=
  match nth_error maskImage channel with
  | Some volume => Returns volume
  | None => Throws InvalidRequestedRegion
  end.

End ITK.

Notation "x <- m ;; k" := (ITK.bind m (fun x => k))
  (at level 61, m at next level, right associativity).

(* ================================================================= *)
(** ** VXL: vectors, matrices and the SVD-based inverse *)

Module VNL.

Definition vnl_vector : Type := list R.
Definition vnl_matrix : Type := list vnl_vector.   (* the rows *)

(** [v.get(i)] *)
Definition get (v : vnl_vector) (i : nat) : R := nth i v 0.

Fixpoint dot (u v : vnl_vector) : R :=
  match u, v with
  | a :: u', b :: v' => a * b + dot u' v'
  | _, _ => 0
  end.

(** [M * v] *)
Definition mat_vec (M : vnl_matrix) (v : vnl_vector) : vnl_vector :=
  map (fun row => dot row v) M.

Definition scale (c : R) (v : vnl_vector) : vnl_vector :=
  map (fun x => c * x) v.

Fixpoint sub (u v : vnl_vector) : vnl_vector :=
  match u, v with
  | a :: u', b :: v' => (a - b) :: sub u' v'
  | _, _ => []
  end.

Definition zeros (n : nat) : vnl_vector := repeat 0 n.

Definition identity (n : nat) : vnl_matrix :=
  map (fun i => map (fun j => if Nat.eqb i j then 1 else 0) (seq 0 n))
      (seq 0 n).

(** An [n] by [n] matrix. *)
Definition square (n : nat) (M : vnl_matrix) : Prop :=
  length M = n /\ Forall (fun row => length row = n) M.

(** [N] undoes [M] on every vector: [N * (M * x) = x]. *)
Definition inverse_of (n : nat) (M N : vnl_matrix) : Prop :=
  forall x, length x = n -> mat_vec N (mat_vec M x) = x.

(** An equation [row . x = rhs] of a linear system. *)
Definition equation : Type := (vnl_vector * R)%type.

Definition satisfies (x : vnl_vector) (e : equation) : Prop :=
  dot (fst e) x = snd e.

(** [x] solves the equation with its right-hand side replaced by zero. *)
Definition in_kernel (x : vnl_vector) (e : equation) : Prop :=
  dot (fst e) x = 0.

(** The first equation whose leading coefficient is not zero, and the
    others in their order. *)
Fixpoint find_pivot (sys : list equation)
  : option (equation * list equation) :=
  match sys with
  | [] => None
  | e :: rest =>
      if Req_dec_T (hd 0 (fst e)) 0
      then match find_pivot rest with
           | Some (p, others) => Some (p, e :: others)
           | None => None
           end
      else Some (e, rest)
  end.

(** Removes the first unknown from [e] with the pivot equation [p]. *)
Definition eliminate (p e : equation) : equation :=
  let c := hd 0 (fst e) / hd 0 (fst p) in
  (sub (tl (fst e)) (scale c (tl (fst p))), snd e - c * snd p).

(** Gaussian elimination on [n] unknowns: the solution of a system with
    an invertible matrix, [None] when a column has no pivot. *)
Fixpoint gauss_solve (n : nat) (sys : list equation) : option vnl_vector :=
  match n with
  | O => Some []
  | S n' =>
      match find_pivot sys with
      | None => None
      | Some (p, others) =>
          match gauss_solve n' (map (eliminate p) others) with
          | None => None
          | Some xs =>
              Some ((snd p - dot (tl (fst p)) xs) / hd 0 (fst p) :: xs)
          end
      end
  end.

(** [vnl_matrix_inverse<float>(M) * v].  VXL computes it from the singular
    value decomposition of [M].  When [M] is invertible that is the one
    solution [x] of [M * x = v], which elimination finds as well.  When a
    singular value is zero VXL drops it and still returns a vector; that
    vector is [rank_deficient M v], left to the caller of this model. *)
Definition vnl_matrix_inverse_mul
    (rank_deficient : vnl_matrix -> vnl_vector -> vnl_vector)
    (M : vnl_matrix) (v : vnl_vector) : vnl_vector :=
  match gauss_solve (length v) (combine M v) with
  | Some x => x
  | None => rank_deficient M v
  end.

End VNL.

(* ================================================================= *)
(** ** What a run of a driver shows *)

Module Driver.
Import ITK.

Definition EXIT_SUCCESS : Z := 0%Z.
Definition EXIT_FAILURE : Z := 1%Z.

(** How the process ends: [main] returns a code, or an exception that no
    handler catches ends it through [std::terminate]. *)
Inductive ExitStatus : Type :=
| Exited (code : Z)
| Terminated (e : ExceptionObject).

(** The steps of [main], in the order of the statements that perform them,
    each with the file or the PSF variance it is given. *)
Inductive Event : Type :=
| ReadMask (file : string)
| ReadPET (file : string)
| UpdateGTM (psf : VectorType)
| CheckMaskDimension
| RegionalMeans
| ApplyInverse
| SyntheticPET
| Blur (variance : VectorType)
| UpdateIterativeYang (psf : VectorType) (iterations : Z)
| WriteOutput (file : string).

Record Run : Type := {
  status : ExitStatus;
  cerr : string;                               (* what [main] sends to std::cerr *)
  written : option (string * PETImageType);    (* the file the writer produced *)
  trace : list Event
}.

Definition halt (s : ExitStatus) (message : string) : Run :=
  {| status := s; cerr := message; written := None; trace := [] |}.

Definition finish (file : string) (image : PETImageType) : Run :=
  {| status := Exited EXIT_SUCCESS; cerr := EmptyString;
     written := Some (file, image); trace := [] |}.

Definition after (e : Event) (r : Run) : Run :=
  {| status := status r; cerr := cerr r; written := written r;
     trace := e :: trace r |}.

Definition tab : string := String "009"%char EmptyString.
Definition endl : string := String "010"%char EmptyString.

(** [vFWHM / (2.0 * sqrt(2.0 * log(2.0)))], the first statement of both
    drivers' variance computation. *)
Definition FWHM_to_sigma (vFWHM : VectorType) : VectorType :=
  let '(x, y, z) := vFWHM in
  let c := 2 * sqrt (2 * ln 2) in
  (x / c, y / c, z / c).

(** A [for (int i = 1; i <= n; i++)] loop over a state, stopped by the first
    exception. *)
Fixpoint for_each {S : Type} (body : nat -> S -> Exceptional S)
    (indices : list nat) (s : S) : Exceptional S :=
  match indices with
  | [] => Returns s
  | i :: rest => s' <- body i s ;; for_each body rest s'
  end.

End Driver.

(* ================================================================= *)
(** ** petpvc::GTMFilter *)

Module GTMFilter.
Import ITK VNL.

(** Modelled from the spec: [petpvc::GTMFilter] ([GTMFilter.h]) is included
    by [RBV.cxx] but is not among the sources.  Section 4.1 of the spec:
    for each region j the indicator is blurred by the PSF; [M[i][j]] is the
    sum of the product of that blurred indicator with region i's indicator,
    divided by region i's size; [S[j]] is the sum of region j's indicator;
    the filter fails when the mask has fewer than one region. *)
Definition Update (blur : VectorType -> PETImageType -> PETImageType)
    (mask : MaskImageType) (psf : VectorType)
  : option (vnl_matrix * vnl_vector) :=
  match mask with
  | [] => None
  | _ =>
      Some (map (fun region_i =>
                   map (fun region_j =>
                          GetSum (pixelwise Mult (blur psf region_j) region_i)
                          / GetSum region_i)
                       mask)
                mask,
            map GetSum mask)
  end.

End GTMFilter.

(* ================================================================= *)
(** ** RBV.cxx *)

Module RBV.
Import ITK VNL Driver.

Record CommandLine : Type := {
  petfile : string;
  maskfile : string;
  outputfile : string;
  FWHM : VectorType           (* --FWHMx, --FWHMy, --FWHMz *)
}.

(** What a run meets outside [RBV.cxx]: the parsed command line ([None]
    when [command.Parse] refuses it), the two readers and the writer
    ([None] and [false] when [Update()] throws), [GTMFilter] with its
    matrix and its region sums ([None] when [Update()] throws), the
    Gaussian blur for a variance, and the vector VXL returns for a
    rank-deficient matrix. *)
Record World : Type := {
  command_Parse : option CommandLine;
  maskReader_Update : string -> option MaskImageType;
  petReader_Update : string -> option (VectorType * PETImageType);
  gtmFilter_Update :
    MaskImageType -> VectorType -> option (vnl_matrix * vnl_vector);
  DiscreteGaussianImageFilter : VectorType -> PETImageType -> PETImageType;
  svd_rank_deficient : vnl_matrix -> vnl_vector -> vnl_vector;
  petWriter_Update : string -> PETImageType -> bool
}.

(** Lines 166-177: the variance in voxel units. *)
Definition variance (vFWHM vVoxelSize : VectorType) : VectorType :=
  let '(v0, v1, v2) := FWHM_to_sigma vFWHM in
  let '(s0, s1, s2) := vVoxelSize in
  ((v0 / s0) ^ 2, (v1 / s1) ^ 2, (v2 / s2) ^ 2).

(** [v.set_size(n)]: [n] entries, each written before it is read. *)
Definition set_size (n : nat) : vnl_vector := repeat 0 n.

(** [v.put(i, x)] *)
Fixpoint put (v : vnl_vector) (i : nat) (x : R) : vnl_vector :=
  match v, i with
  | [], _ => []
  | _ :: v', O => x :: v'
  | a :: v', S i' => a :: put v' i' x
  end.

(** Lines 234-265, one turn of the loop: the sum of the PET image clipped
    to region [i], divided by the region's sum from the GTM filter. *)
Definition regional_mean (pet : PETImageType) (mask : MaskImageType)
    (sumOfRegions : vnl_vector) (i : nat) (vecRegMeansCurrent : vnl_vector)
  : Exceptional vnl_vector :=
  imageExtractedRegion <- ExtractFilter mask (i - 1) ;;
  clipped <- MultiplyFilter pet imageExtractedRegion ;;
  let fSumOfPETReg := GetSum clipped in
  Returns (put vecRegMeansCurrent (i - 1)
               (fSumOfPETReg / get sumOfRegions (i - 1))).

Definition regional_means (pet : PETImageType) (mask : MaskImageType)
    (sumOfRegions : vnl_vector) (nClasses : nat) : Exceptional vnl_vector :=
  for_each (regional_mean pet mask sumOfRegions) (seq 1 nClasses)
           (set_size nClasses).

(** Lines 311-362.  [imageResult] is a pointer: null at first, then to the
    image taken out of the multiply filter by [DisconnectPipeline()], then
    to the add filter's output, which every later [addFilter->Update()]
    overwrites while the pointer stays on it. *)
Inductive ImageRef : Type :=
| Null
| Detached (pixels : PETImageType)
| OutputOfAddFilter.

Record Images : Type := {
  addFilter_Output : Pointer;       (* null before the filter's first update *)
  imageResult : ImageRef
}.

Definition deref (s : Images) : Pointer :=
  match imageResult s with
  | Null => None
  | Detached pixels => Some pixels
  | OutputOfAddFilter => addFilter_Output s
  end.

(** One turn of the loop: region [i] times its mean starts the result when
    [i] is 1 and is added to it otherwise.  The add filter computes each
    voxel from the same voxel of its two inputs, also when its first input
    is its own output. *)
Definition add_region (maskImage : MaskImageType) (vRegMeans : vnl_vector)
    (i : nat) (s : Images) : Exceptional Images :=
  region <- ExtractFilter maskImage (i - 1) ;;
  let scaled := MultiplyByConstant region (get vRegMeans (i - 1)) in
  if Nat.eqb i 1
  then Returns {| addFilter_Output := addFilter_Output s;
                  imageResult := Detached scaled |}
  else previous <- required (deref s) ;;
       sum <- AddFilter previous scaled ;;
       Returns {| addFilter_Output := Some sum;
                  imageResult := OutputOfAddFilter |}.

Definition getSyntheticPET (maskImage : MaskImageType)
    (vRegMeans : vnl_vector) : Exceptional Pointer :=
  let nClasses := length vRegMeans in
  s <- for_each (add_region maskImage vRegMeans) (seq 1 nClasses)
                {| addFilter_Output := None; imageResult := Null |} ;;
  Returns (deref s).

(** Lines 364-391. *)
Definition getRBVImage (origPET : PETImageType) (syntheticPET : Pointer)
    (pBlurFilter : PETImageType -> PETImageType)
  : Exceptional PETImageType :=
  synthetic <- required syntheticPET ;;
  let blurred := pBlurFilter synthetic in
  factors <- DivideFilter synthetic blurred ;;
  MultiplyFilter origPET factors.

(** Lines 192-308 of [main], after the GTM filter has run. *)
Definition correct (w : World) (cmd : CommandLine) (mask : MaskImageType)
    (pet : PETImageType) (vVariance : VectorType)
    (gtm : vnl_matrix) (sumOfRegions : vnl_vector) : Run :=
  after CheckMaskDimension
  (if Nat.eqb MaskImageDimension 4 then
     let nClasses := length mask in
     after RegionalMeans
     match regional_means pet mask sumOfRegions nClasses with
     | Throws e => halt (Terminated e) EmptyString
     | Returns vecRegMeansCurrent =>
         after ApplyInverse
         (let vecRegMeansUpdated :=
            vnl_matrix_inverse_mul (svd_rank_deficient w)
                                   gtm vecRegMeansCurrent in
          after SyntheticPET
          match getSyntheticPET mask vecRegMeansUpdated with
          | Throws e => halt (Terminated e) EmptyString
          | Returns imageSynthPET =>
              after (Blur vVariance)
              match getRBVImage pet imageSynthPET
                      (DiscreteGaussianImageFilter w vVariance) with
              | Throws e => halt (Terminated e) EmptyString
              | Returns imageRBV =>
                  after (WriteOutput (outputfile cmd))
                  (if petWriter_Update w (outputfile cmd) imageRBV
                   then finish (outputfile cmd) imageRBV
                   else halt (Exited EXIT_FAILURE)
                          ("[Error]" ++ tab ++ "Cannot write output file: "
                           ++ outputfile cmd ++ endl)%string)
              end
          end)
     end
   else
     halt (Exited EXIT_FAILURE)
          ("[Error]" ++ tab ++ "Mask file: " ++ maskfile cmd
           ++ " must be 4-D!" ++ endl)%string).

(** Lines 87-309. *)
Definition main (w : World) : Run :=
  match command_Parse w with
  | None => halt (Exited EXIT_FAILURE) EmptyString
  | Some cmd =>
      after (ReadMask (maskfile cmd))
      match maskReader_Update w (maskfile cmd) with
      | None =>
          halt (Exited EXIT_FAILURE)
               ("[Error]" ++ tab ++ "Cannot read mask input file: "
                ++ maskfile cmd ++ endl)%string
      | Some mask =>
          after (ReadPET (petfile cmd))
          match petReader_Update w (petfile cmd) with
          | None =>
              halt (Exited EXIT_FAILURE)
                   ("[Error]" ++ tab ++ "Cannot read PET input file: "
                    ++ petfile cmd ++ endl)%string
          | Some (vVoxelSize, pet) =>
              let vVariance := variance (FWHM cmd) vVoxelSize in
              after (UpdateGTM vVariance)
              match gtmFilter_Update w mask vVariance with
              | None =>
                  halt (Exited EXIT_FAILURE)
                       ("[Error]" ++ tab ++ "Cannot read PET input file: "
                        ++ petfile cmd ++ endl)%string
              | Some (gtm, sumOfRegions) =>
                  correct w cmd mask pet vVariance gtm sumOfRegions
              end
          end
      end
  end.

End RBV.

(* ================================================================= *)
(** ** IterativeYang.cxx *)

Module IterativeYang.
Import ITK Driver.

Record CommandLine : Type := {
  petfile : string;
  maskfile : string;
  outputfile : string;
  FWHM : VectorType;
  Iterations : Z;             (* --iter, 10 when absent *)
  debug : bool
}.

(** What a run meets outside [IterativeYang.cxx].  The filter
    [petpvc::IterativeYangPVCImageFilter] is not among the sources: its
    [Update()] gives the corrected image or throws an exception, of which
    [main] prints the text. *)
Record World : Type := {
  command_Parse : option CommandLine;
  maskReader_Update : string -> option MaskImageType;
  petReader_Update : string -> option (VectorType * PETImageType);
  iyFilter_Update :
    PETImageType -> MaskImageType -> VectorType -> Z -> bool ->
    PETImageType + string;
  petWriter_Update : string -> PETImageType -> bool
}.

(** Lines 151-161: the voxel size is read and not used. *)
Definition variance (vFWHM vVoxelSize : VectorType) : VectorType :=
  let '(v0, v1, v2) := FWHM_to_sigma vFWHM in
  (v0 ^ 2, v1 ^ 2, v2 ^ 2).

(** Lines 55-194. *)
Definition main (w : World) : Run :=
  match command_Parse w with
  | None => halt (Exited EXIT_FAILURE) EmptyString
  | Some cmd =>
      after (ReadMask (maskfile cmd))
      match maskReader_Update w (maskfile cmd) with
      | None =>
          halt (Exited EXIT_FAILURE)
               ("[Error]" ++ tab ++ "Cannot read mask input file: "
                ++ maskfile cmd ++ endl)%string
      | Some mask =>
          after (ReadPET (petfile cmd))
          match petReader_Update w (petfile cmd) with
          | None =>
              halt (Exited EXIT_FAILURE)
                   ("[Error]" ++ tab ++ "Cannot read PET input file: "
                    ++ petfile cmd ++ endl)%string
          | Some (vVoxelSize, pet) =>
              let vVariance := variance (FWHM cmd) vVoxelSize in
              after (UpdateIterativeYang vVariance (Iterations cmd))
              match iyFilter_Update w pet mask vVariance
                                    (Iterations cmd) (debug cmd) with
              | inr err =>
                  halt (Exited EXIT_FAILURE)
                       ("[Error]" ++ tab
                        ++ "failure applying Iterative Yang on: "
                        ++ petfile cmd ++ endl ++ err ++ endl)%string
              | inl corrected =>
                  after (WriteOutput (outputfile cmd))
                  (if petWriter_Update w (outputfile cmd) corrected
                   then finish (outputfile cmd) corrected
                   else halt (Exited EXIT_FAILURE)
                          (endl ++ "[Error]" ++ tab
                           ++ "Cannot write output file: "
                           ++ outputfile cmd ++ endl)%string)
              end
          end
      end
  end.

End IterativeYang.


(* ================================================================= *)
(** ** The specification's formulas *)

Module Spec.
Import ITK VNL.

(** Section 3, PSF: the variance of one axis on a voxel grid. *)
Definition variance_axis (fwhm spacing : R) : R :=
  (fwhm / (2 * sqrt (2 * ln 2)) / spacing) ^ 2.

(** The sum of [f j] over the regions [j < k]. *)
Fixpoint sum_upto (f : nat -> R) (k : nat) : R :=
  match k with
  | O => 0
  | S k' => sum_upto f k' + f k'
  end.

(** The indicator of region [j] at a voxel. *)
Definition indicator (mask : MaskImageType) (j voxel : nat) : R :=
  nth voxel (nth j mask []) 0.

(** Section 4.4: the sum over the regions j of [correctedMean[j]] times the
    indicator of region j at the voxel. *)
Definition term (mask : MaskImageType) (correctedMean : vnl_vector)
    (voxel j : nat) : R :=
  get correctedMean j * indicator mask j voxel.

Definition blend (mask : MaskImageType) (correctedMean : vnl_vector)
    (voxel : nat) : R :=
  sum_upto (term mask correctedMean voxel) (length correctedMean).

(** Section 4.2: the observed mean of region [j]. *)
Definition observed_mean (activity : PETImageType) (mask : MaskImageType)
    (S : vnl_vector) (j : nat) : R :=
  GetSum (pixelwise Mult activity (nth j mask [])) / get S j.

(** Section 3, PSF: the variance without the division by the spacing. *)
Definition variance_mm (fwhm : R) : R := (fwhm / (2 * sqrt (2 * ln 2))) ^ 2.

Definition voxel_variance (fwhm spacing : VectorType) : VectorType :=
  let '(fx, fy, fz) := fwhm in
  let '(sx, sy, sz) := spacing in
  (variance_axis fx sx, variance_axis fy sy, variance_axis fz sz).

Definition mm_variance (fwhm : VectorType) : VectorType :=
  let '(fx, fy, fz) := fwhm in
  (variance_mm fx, variance_mm fy, variance_mm fz).

(** Masks whose voxels are 0 or 1, whose regions share no voxel, and whose
    regions all have a voxel. *)
Definition binary (mask : MaskImageType) : Prop :=
  Forall (Forall (fun x => x = 0 \/ x = 1)) mask.

Definition disjoint (mask : MaskImageType) : Prop :=
  forall i j voxel,
    i <> j -> indicator mask i voxel * indicator mask j voxel = 0.

Definition no_empty_region (mask : MaskImageType) : Prop :=
  Forall (fun region => GetSum region <> 0) mask.

(** A mask on a grid of [n] voxels. *)
Definition on_grid (n : nat) (mask : MaskImageType) : Prop :=
  Forall (fun region => length region = n) mask.

End Spec.

(* ================================================================= *)
(** ** Concrete inputs *)

Module Scenario.
Import ITK VNL Driver.

(** The spec's two-region scenario: 20% of each region's signal lands in the
    other one. *)
Definition cross_bleed : vnl_matrix := [[4/5; 1/5]; [1/5; 4/5]].
Definition cross_bleed_inverse : vnl_matrix :=
  [[4/3; -(1/3)]; [-(1/3); 4/3]].

(** A stand-in for what VXL returns on a rank-deficient matrix, and a blur
    that changes nothing. *)
Definition keep (M : vnl_matrix) (v : vnl_vector) : vnl_vector := v.
Definition no_blur (variance : VectorType) (img : PETImageType)
  : PETImageType := img.

Definition rbv_command (fwhm : VectorType) : RBV.CommandLine :=
  {| RBV.petfile := "pet.nii"; RBV.maskfile := "mask.nii";
     RBV.outputfile := "out.nii"; RBV.FWHM := fwhm |}.

(** A run of RBV whose three files can be read and written, on voxels of
    2 mm. *)
Definition rbv_world (fwhm : VectorType) (mask : MaskImageType)
    (pet : PETImageType)
    (gtmFilter : MaskImageType -> VectorType -> option (vnl_matrix * vnl_vector))
    (blur : VectorType -> PETImageType -> PETImageType)
    (rank_deficient : vnl_matrix -> vnl_vector -> vnl_vector) : RBV.World :=
  {| RBV.command_Parse := Some (rbv_command fwhm);
     RBV.maskReader_Update := fun _ => Some mask;
     RBV.petReader_Update := fun _ => Some ((2, 2, 2), pet);
     RBV.gtmFilter_Update := gtmFilter;
     RBV.DiscreteGaussianImageFilter := blur;
     RBV.svd_rank_deficient := rank_deficient;
     RBV.petWriter_Update := fun _ _ => true |}.

(** Two voxels, two regions, the second region without a voxel; the GTM
    filter reports the sum of each region's indicator. *)
Definition empty_region_world (gtm : vnl_matrix) blur rank_deficient
  : RBV.World :=
  rbv_world (6, 6, 6) [[1; 0]; [0; 0]] [5; 3]
            (fun mask _ => Some (gtm, map GetSum mask)) blur rank_deficient.

(** A mask file that holds one 3-D volume: the reader of 4-D images delivers
    it with a fourth axis of size 1. *)
Definition volume_mask_world : RBV.World :=
  rbv_world (6, 6, 6) [[1; 1]] [5; 3]
            (fun _ _ => Some ([[1]], [2])) no_blur keep.

(** Two regions with the same indicator: the two rows of the GTM are equal. *)
Definition duplicate_regions_world blur rank_deficient : RBV.World :=
  rbv_world (6, 6, 6) [[1; 1]; [1; 1]] [4; 6]
            (fun _ _ => Some ([[1; 1]; [1; 1]], [2; 2])) blur rank_deficient.

(** No PSF, one binary region that leaves the second voxel outside. *)
Definition background_world rank_deficient : RBV.World :=
  rbv_world (0, 0, 0) [[1; 0]] [5; 3]
            (GTMFilter.Update no_blur) no_blur rank_deficient.

(** No PSF, two binary regions of one voxel each. *)
Definition zero_psf_world : RBV.World :=
  rbv_world (0, 0, 0) [[1; 0]; [0; 1]] [5; 3]
            (GTMFilter.Update no_blur) no_blur keep.

(** The GTM filter throws. *)
Definition gtm_throws_world : RBV.World :=
  rbv_world (6, 6, 6) [[1; 0]] [5; 3] (fun _ _ => None) no_blur keep.

(** The same run with a PET file that cannot be read. *)
Definition unreadable_pet (w : RBV.World) : RBV.World :=
  {| RBV.command_Parse := RBV.command_Parse w;
     RBV.maskReader_Update := RBV.maskReader_Update w;
     RBV.petReader_Update := fun _ => None;
     RBV.gtmFilter_Update := RBV.gtmFilter_Update w;
     RBV.DiscreteGaussianImageFilter := RBV.DiscreteGaussianImageFilter w;
     RBV.svd_rank_deficient := RBV.svd_rank_deficient w;
     RBV.petWriter_Update := RBV.petWriter_Update w |}.

(** A run of Iterative Yang: FWHM 6 mm on voxels of 2 mm. *)
Definition iy_world : IterativeYang.World :=
  {| IterativeYang.command_Parse :=
       Some {| IterativeYang.petfile := "pet.nii";
               IterativeYang.maskfile := "mask.nii";
               IterativeYang.outputfile := "out.nii";
               IterativeYang.FWHM := (6, 6, 6);
               IterativeYang.Iterations := 10%Z;
               IterativeYang.debug := false |};
     IterativeYang.maskReader_Update := fun _ => Some [[1; 0]];
     IterativeYang.petReader_Update := fun _ => Some ((2, 2, 2), [5; 3]);
     IterativeYang.iyFilter_Update := fun pet _ _ _ _ => inl pet;
     IterativeYang.petWriter_Update := fun _ _ => true |}.

End Scenario.

(* ================================================================= *)
(** ** More concrete inputs *)

Module Cases.
Import ITK VNL Driver Scenario.

(** A PET image of three voxels with a mask of two. *)
Definition other_grid_world : RBV.World :=
  rbv_world (6, 6, 6) [[1; 0]] [5; 3; 1]
            (fun _ _ => Some ([[1]], [1])) no_blur keep.


Definition iy_command : IterativeYang.CommandLine :=
  {| IterativeYang.petfile := "pet.nii";
     IterativeYang.maskfile := "mask.nii";
     IterativeYang.outputfile := "out.nii";
     IterativeYang.FWHM := (6, 6, 6);
     IterativeYang.Iterations := 10%Z;
     IterativeYang.debug := false |}.

(** Runs of Iterative Yang by what the mask reader and the filter do. *)
Definition iy_world_with (mask : option MaskImageType)
    (filter : PETImageType + string) : IterativeYang.World :=
  {| IterativeYang.command_Parse := Some iy_command;
     IterativeYang.maskReader_Update := fun _ => mask;
     IterativeYang.petReader_Update := fun _ => Some ((2, 2, 2), [5; 3]);
     IterativeYang.iyFilter_Update := fun _ _ _ _ _ => filter;
     IterativeYang.petWriter_Update := fun _ _ => true |}.

(** A blur that halves every voxel. *)
Definition halve (img : PETImageType) : PETImageType :=
  MultiplyByConstant img (/ 2).

End Cases.
(* ================================================================= *)
(** ** Linear algebra on lists *)

Section LinearAlgebra.
Import VNL.

Lemma dot_nil_r (u : vnl_vector) : dot u [] = 0.
Proof. destruct u; reflexivity. Qed.

Lemma dot_zeros_r (u : vnl_vector) (n : nat) : dot u (zeros n) = 0.
Proof.
  revert n; induction u as [|a u IH]; intros [|n]; simpl; trivial.
  unfold zeros in IH. rewrite IH. lra.
Qed.

Lemma dot_sub_scale (c : R) (u v x : vnl_vector) :
  length u = length v ->
  dot (sub u (scale c v)) x = dot u x - c * dot v x.
Proof.
  revert v x; induction u as [|a u IH]; intros [|b v] x Hlen;
    simpl in Hlen; try discriminate; simpl.
  - lra.
  - destruct x as [|x0 x]; simpl; [lra|].
    rewrite IH by lia. lra.
Qed.

Lemma length_sub_scale (c : R) (u v : vnl_vector) :
  length u = length v -> length (sub u (scale c v)) = length u.
Proof.
  revert v; induction u as [|a u IH]; intros [|b v] Hlen;
    simpl in *; try discriminate; trivial.
  f_equal. apply IH. lia.
Qed.

Lemma mat_vec_zeros (M : vnl_matrix) (n : nat) :
  mat_vec M (zeros n) = zeros (length M).
Proof.
  induction M as [|row M IH]; simpl; trivial.
  rewrite dot_zeros_r. unfold zeros in *. now rewrite IH.
Qed.

Lemma length_mat_vec (M : vnl_matrix) (x : vnl_vector) :
  length (mat_vec M x) = length M.
Proof. apply length_map. Qed.

(** *** The pivot *)

Lemma find_pivot_some (sys : list equation) p others :
  find_pivot sys = Some (p, others) ->
  hd 0 (fst p) <> 0 /\ length sys = S (length others) /\
  forall P : equation -> Prop,
    Forall P sys <-> (P p /\ Forall P others).
Proof.
  revert p others; induction sys as [|e rest IH]; intros p others; simpl;
    [discriminate|].
  destruct (Req_dec_T (hd 0 (fst e)) 0) as [Hz|Hnz].
  - destruct (find_pivot rest) as [[p' others']|]; [|discriminate].
    intros H; injection H as <- <-.
    destruct (IH p' others' eq_refl) as (Hp & Hlen & Hall).
    split; [trivial|]. split; [simpl; lia|].
    intros P. rewrite !Forall_cons_iff, Hall. tauto.
  - intros H; injection H as <- <-.
    split; [trivial|]. split; [trivial|].
    intros P. now rewrite Forall_cons_iff.
Qed.

Lemma find_pivot_none (sys : list equation) :
  find_pivot sys = None -> Forall (fun e => hd 0 (fst e) = 0) sys.
Proof.
  induction sys as [|e rest IH]; simpl; [constructor|].
  destruct (Req_dec_T (hd 0 (fst e)) 0) as [Hz|Hnz]; [|discriminate].
  destruct (find_pivot rest) as [[p others]|]; [discriminate|].
  intros _. constructor; auto.
Qed.

(** *** Elimination is sound *)

(** Opens an equation whose row has length [S n] into its leading
    coefficient, the rest of the row and the right-hand side. *)
Ltac open_row e H :=
  let a := fresh "a" in let r := fresh "r" in let b := fresh "b" in
  destruct e as [[|a r] b]; simpl in H; [discriminate H|];
  injection H as H.

Lemma eliminate_length (n : nat) (p e : equation) :
  length (fst p) = S n -> length (fst e) = S n ->
  length (fst (eliminate p e)) = n.
Proof.
  intros Hp He. open_row p Hp. open_row e He.
  unfold eliminate; simpl. rewrite length_sub_scale; lia.
Qed.

Lemma eliminate_back (n : nat) (p e : equation) (x0 : R) (xs : vnl_vector) :
  length (fst p) = S n -> length (fst e) = S n ->
  hd 0 (fst p) <> 0 ->
  hd 0 (fst p) * x0 + dot (tl (fst p)) xs = snd p ->
  satisfies xs (eliminate p e) ->
  satisfies (x0 :: xs) e.
Proof.
  intros Hp He. open_row p Hp. open_row e He.
  unfold satisfies, eliminate; simpl. intros Hnz Hpivot Hs.
  rewrite dot_sub_scale in Hs by lia.
  set (dp := dot r xs) in *. set (de := dot r0 xs) in *.
  assert (Hde : de = b0 - a0 / a * (b - dp)) by lra.
  rewrite Hde, <- Hpivot. field. exact Hnz.
Qed.

Lemma pivot_row_solved (n : nat) (p : equation) (xs : vnl_vector) :
  length (fst p) = S n -> hd 0 (fst p) <> 0 ->
  satisfies ((snd p - dot (tl (fst p)) xs) / hd 0 (fst p) :: xs) p.
Proof.
  intros Hp. open_row p Hp. unfold satisfies; simpl. intros Hnz.
  field. exact Hnz.
Qed.

Lemma gauss_solve_sound (n : nat) : forall (sys : list equation) x,
  length sys = n ->
  Forall (fun e => length (fst e) = n) sys ->
  gauss_solve n sys = Some x ->
  length x = n /\ Forall (satisfies x) sys.
Proof.
  induction n as [|n IH]; intros sys x Hlen Hrows; simpl.
  - intros H; injection H as <-.
    destruct sys; [|discriminate]. split; [trivial|constructor].
  - destruct (find_pivot sys) as [[p others]|] eqn:Hpiv; [|discriminate].
    destruct (find_pivot_some _ _ _ Hpiv) as (Hnz & Hcount & Hall).
    apply Hall in Hrows; destruct Hrows as [Hp Hothers].
    destruct (gauss_solve n (map (eliminate p) others)) as [xs|] eqn:Hrec;
      [|discriminate].
    intros H; injection H as <-.
    destruct (IH (map (eliminate p) others) xs) as [Hxs Hsat]; trivial.
    + rewrite length_map. lia.
    + rewrite Forall_map. eapply Forall_impl; [|exact Hothers].
      intros e He. now apply eliminate_length.
    + split; [simpl; lia|].
      assert (Hpivot := pivot_row_solved n p xs Hp Hnz).
      apply Hall. split; [exact Hpivot|].
      rewrite Forall_map in Hsat.
      rewrite Forall_forall in *. intros e He.
      apply (eliminate_back n p); auto.
      clear - Hpivot Hp. open_row p Hp. exact Hpivot.
Qed.

(** *** Elimination finds a pivot in every column of an injective system *)

Lemma eliminate_kernel (n : nat) (p e : equation) (xs : vnl_vector) :
  length (fst p) = S n -> length (fst e) = S n ->
  hd 0 (fst p) <> 0 ->
  in_kernel xs (eliminate p e) ->
  in_kernel (- dot (tl (fst p)) xs / hd 0 (fst p) :: xs) e.
Proof.
  intros Hp He. open_row p Hp. open_row e He.
  unfold in_kernel, eliminate; simpl. intros Hnz Hk.
  rewrite dot_sub_scale in Hk by lia.
  set (dp := dot r xs) in *. set (de := dot r0 xs) in *.
  assert (Hde : de = a0 / a * dp) by lra.
  rewrite Hde. field. exact Hnz.
Qed.

Lemma pivot_kernel (n : nat) (p : equation) (xs : vnl_vector) :
  length (fst p) = S n -> hd 0 (fst p) <> 0 ->
  in_kernel (- dot (tl (fst p)) xs / hd 0 (fst p) :: xs) p.
Proof.
  intros Hp. open_row p Hp. unfold in_kernel; simpl. intros Hnz.
  field. exact Hnz.
Qed.

Lemma unit_kernel (n : nat) (e : equation) :
  length (fst e) = S n -> hd 0 (fst e) = 0 ->
  in_kernel (1 :: zeros n) e.
Proof.
  intros He. open_row e He. unfold in_kernel; simpl. intros ->.
  rewrite dot_zeros_r. lra.
Qed.

Lemma gauss_solve_complete (n : nat) : forall (sys : list equation),
  length sys = n ->
  Forall (fun e => length (fst e) = n) sys ->
  (forall x, length x = n -> Forall (in_kernel x) sys -> x = zeros n) ->
  exists x, gauss_solve n sys = Some x.
Proof.
  induction n as [|n IH]; intros sys Hlen Hrows Hker; simpl.
  - now exists [].
  - destruct (find_pivot sys) as [[p others]|] eqn:Hpiv.
    + destruct (find_pivot_some _ _ _ Hpiv) as (Hnz & Hcount & Hall).
      apply Hall in Hrows; destruct Hrows as [Hp Hothers].
      destruct (IH (map (eliminate p) others)) as [xs Hxs].
      * rewrite length_map. lia.
      * rewrite Forall_map. eapply Forall_impl; [|exact Hothers].
        intros e He. now apply eliminate_length.
      * intros xs Hlxs Hk.
        assert (Hx : - dot (tl (fst p)) xs / hd 0 (fst p) :: xs
                     = zeros (S n)).
        { apply Hker; [simpl; lia|]. apply Hall.
          split; [now apply (pivot_kernel n)|].
          rewrite Forall_map in Hk. rewrite Forall_forall in *.
          intros e He. apply (eliminate_kernel n); auto. }
        now injection Hx.
      * rewrite Hxs. eauto.
    + exfalso. apply find_pivot_none in Hpiv.
      assert (Hx : 1 :: zeros n = zeros (S n)).
      { apply Hker; [simpl; unfold zeros; rewrite repeat_length; lia|].
        rewrite Forall_forall in *. intros e He.
        apply unit_kernel; auto. }
      injection Hx as H1. lra.
Qed.

(** *** Systems written as a matrix and a right-hand side *)

Lemma satisfies_combine (x : vnl_vector) : forall (M : vnl_matrix) y,
  length M = length y ->
  Forall (satisfies x) (combine M y) <-> mat_vec M x = y.
Proof.
  induction M as [|row M IH]; intros [|b y] Hlen; simpl in Hlen;
    try discriminate; simpl.
  - split; [trivial|constructor].
  - rewrite Forall_cons_iff, IH by lia. unfold satisfies; simpl.
    split; [intros [-> ->]; trivial|intros H; injection H; auto].
Qed.

Lemma in_kernel_combine (x : vnl_vector) : forall (M : vnl_matrix) y,
  length M = length y ->
  Forall (in_kernel x) (combine M y) <-> mat_vec M x = zeros (length M).
Proof.
  induction M as [|row M IH]; intros [|b y] Hlen; simpl in Hlen;
    try discriminate; simpl.
  - split; [trivial|constructor].
  - rewrite Forall_cons_iff, IH by lia. unfold in_kernel; simpl.
    split; [intros [-> ->]; trivial|intros H; injection H; auto].
Qed.

Lemma rows_combine (n : nat) : forall (M : vnl_matrix) (y : vnl_vector),
  Forall (fun row => length row = n) M ->
  Forall (fun e : equation => length (fst e) = n) (combine M y).
Proof.
  induction M as [|row M IH]; intros [|b y] H; simpl; try constructor;
    inversion H; subst; auto.
Qed.

(** The solver on an invertible matrix: elimination succeeds, its result
    solves the system, and it is the inverse applied to the right-hand
    side. *)
Lemma inverse_mul_invertible fb (n : nat) (M N : vnl_matrix) (y : vnl_vector) :
  square n M -> length y = n -> inverse_of n M N ->
  vnl_matrix_inverse_mul fb M y = mat_vec N y /\
  mat_vec M (vnl_matrix_inverse_mul fb M y) = y.
Proof.
  intros [HM Hrows] Hy Hinv. unfold vnl_matrix_inverse_mul.
  assert (Hsys : length (combine M y) = n)
    by (rewrite length_combine; lia).
  assert (Hr := rows_combine n M y Hrows).
  destruct (gauss_solve_complete n (combine M y) Hsys Hr) as [x Hx].
  - intros x Hlx Hk. apply in_kernel_combine in Hk; [|lia].
    rewrite <- (Hinv x Hlx), Hk, mat_vec_zeros.
    rewrite <- (Hinv x Hlx), length_mat_vec in Hlx. now rewrite Hlx.
  - rewrite Hy, Hx.
    destruct (gauss_solve_sound n _ x Hsys Hr Hx) as [Hlx Hsat].
    apply satisfies_combine in Hsat; [|lia].
    split; [|exact Hsat]. now rewrite <- Hsat, Hinv.
Qed.

End LinearAlgebra.

(* ================================================================= *)
(** ** The filters on lists *)

Section Filters.
Import ITK VNL Driver.

Lemma length_pixelwise (f : R -> R -> R) (a b : PETImageType) :
  length a = length b -> length (pixelwise f a b) = length a.
Proof.
  intros H. unfold pixelwise. rewrite length_map, length_combine. lia.
Qed.

Lemma nth_pixelwise (f : R -> R -> R) : forall (a b : PETImageType) v,
  length a = length b -> (v < length a)%nat ->
  nth v (pixelwise f a b) 0 = f (nth v a 0) (nth v b 0).
Proof.
  induction a as [|x a IH]; intros [|y b] v Hlen Hv; simpl in *;
    try discriminate; try lia.
  destruct v as [|v]; [reflexivity|]. apply IH; lia.
Qed.

Lemma BinaryFunctor_returns (f : R -> R -> R) (a b : PETImageType) :
  length a = length b ->
  BinaryFunctorImageFilter f a b = Returns (pixelwise f a b).
Proof.
  intros H. unfold BinaryFunctorImageFilter.
  now rewrite (proj2 (Nat.eqb_eq _ _) H).
Qed.

Lemma nth_MultiplyByConstant (a : PETImageType) (c : R) (v : nat) :
  nth v (MultiplyByConstant a c) 0 = nth v a 0 * c.
Proof.
  unfold MultiplyByConstant, Mult.
  revert v; induction a as [|x a IH]; intros [|v]; simpl; auto; lra.
Qed.

Lemma ExtractFilter_returns (mask : MaskImageType) (j : nat) :
  (j < length mask)%nat ->
  ExtractFilter mask j = Returns (nth j mask []).
Proof.
  intros H. unfold ExtractFilter.
  now rewrite (nth_error_nth' mask [] H).
Qed.

Lemma fold_left_Rplus (a : list R) (x : R) :
  fold_left Rplus a x = x + fold_left Rplus a 0.
Proof.
  revert x; induction a as [|y a IH]; intros x; simpl; [lra|].
  rewrite (IH (x + y)), (IH (0 + y)). lra.
Qed.

Lemma GetSum_cons (x : R) (a : PETImageType) :
  GetSum (x :: a) = x + GetSum a.
Proof.
  unfold GetSum; simpl. rewrite fold_left_Rplus. lra.
Qed.

Lemma Div_nonzero (a b : R) : b <> 0 -> Div a b = a / b.
Proof.
  intros H. unfold Div. destruct (Req_dec_T b 0); [contradiction|reflexivity].
Qed.

Lemma Div_zero (a : R) : Div a 0 = float_max.
Proof.
  unfold Div. destruct (Req_dec_T 0 0); [reflexivity|contradiction].
Qed.

Lemma float_max_large : 1 < float_max.
Proof.
  unfold float_max.
  assert (H23 : 1 <= 2 ^ 23) by (apply pow_R1_Rle; lra).
  assert (H127 : 1 <= 2 ^ 127) by (apply pow_R1_Rle; lra).
  assert (Hinv : / 2 ^ 23 <= 1).
  { rewrite <- Rinv_1. apply Rinv_le_contravar; lra. }
  assert (0 < / 2 ^ 23) by (apply Rinv_0_lt_compat; lra).
  assert (Hhalf : / 2 ^ 23 <= / 2).
  { apply Rinv_le_contravar; [lra|].
    change (2 ^ 23) with (2 * 2 ^ 22).
    assert (1 <= 2 ^ 22) by (apply pow_R1_Rle; lra). lra. }
  nra.
Qed.

End Filters.

(* ================================================================= *)
(** ** getSyntheticPET and getRBVImage *)

Section Synthetic.
Import ITK VNL Driver RBV Spec.

Variable maskImage : MaskImageType.
Variable vRegMeans : vnl_vector.
Variable n : nat.
Hypothesis grid : on_grid n maskImage.

Local Abbreviation term := (Spec.term maskImage vRegMeans).

Lemma region_on_grid (j : nat) :
  (j < length maskImage)%nat -> length (nth j maskImage []) = n.
Proof.
  intros H. unfold on_grid in grid. rewrite Forall_forall in grid.
  apply grid, nth_In, H.
Qed.

(** The turns of the loop after the first: when [imageResult] points to the
    sum over the regions below [k], it comes out pointing to the sum over
    those below [k + m]. *)
Lemma add_regions (m : nat) : forall (k : nat) (s : Images) (acc : PETImageType),
  (1 <= k)%nat -> (k + m <= length maskImage)%nat ->
  deref s = Some acc -> length acc = n ->
  (forall v, (v < n)%nat -> nth v acc 0 = sum_upto (term v) k) ->
  exists s' img,
    for_each (add_region maskImage vRegMeans) (seq (S k) m) s = Returns s' /\
    deref s' = Some img /\
    length img = n /\
    forall v, (v < n)%nat -> nth v img 0 = sum_upto (term v) (k + m).
Proof.
  induction m as [|m IH]; intros k s acc Hk Hm Hs Hacc Hsum; simpl.
  - exists s, acc. rewrite Nat.add_0_r. auto.
  - unfold add_region at 1. simpl (S k - 1)%nat. rewrite Nat.sub_0_r.
    rewrite ExtractFilter_returns by lia. simpl.
    destruct k as [|k]; [lia|]. simpl (Nat.eqb _ _).
    assert (Hreg := region_on_grid (S k) ltac:(lia)).
    set (scaled := MultiplyByConstant _ _).
    assert (Hscaled : length scaled = n)
      by (unfold scaled, MultiplyByConstant; now rewrite length_map).
    rewrite Hs. simpl.
    unfold AddFilter. rewrite BinaryFunctor_returns by lia. simpl.
    destruct (IH (S (S k))
                {| addFilter_Output := Some (pixelwise Add2 acc scaled);
                   imageResult := OutputOfAddFilter |}
                (pixelwise Add2 acc scaled))
      as (s' & img & Hrun & Hs' & Hl & Hv).
    + lia.
    + lia.
    + reflexivity.
    + rewrite length_pixelwise; lia.
    + intros v Hlt. rewrite nth_pixelwise by lia.
      unfold Add2, scaled. rewrite nth_MultiplyByConstant, Hsum by trivial.
      simpl. unfold Spec.term, indicator. lra.
    + exists s', img. split; [exact Hrun|]. split; [exact Hs'|].
      split; [exact Hl|].
      intros v Hlt. rewrite Hv by trivial.
      now replace (S (S k) + m)%nat with (S (k + S m)) by lia.
Qed.

(** The whole loop for at least one region. *)
Lemma getSyntheticPET_blend :
  (1 <= length vRegMeans)%nat -> length maskImage = length vRegMeans ->
  exists img,
    getSyntheticPET maskImage vRegMeans = Returns (Some img) /\
    length img = n /\
    forall v, (v < n)%nat -> nth v img 0 = blend maskImage vRegMeans v.
Proof.
  intros HK Hlen. unfold getSyntheticPET, blend.
  destruct (length vRegMeans) as [|K] eqn:EK; [lia|]. simpl.
  unfold add_region at 1. simpl.
  rewrite ExtractFilter_returns by lia. simpl.
  assert (Hreg := region_on_grid 0 ltac:(lia)).
  set (first := MultiplyByConstant (nth 0 maskImage []) (get vRegMeans 0)).
  destruct (add_regions K 1
              {| addFilter_Output := None; imageResult := Detached first |}
              first)
    as (s' & img & Hrun & Hs' & Hl & Hv).
  - lia.
  - lia.
  - reflexivity.
  - unfold first, MultiplyByConstant. now rewrite length_map.
  - intros v Hlt. unfold first. rewrite nth_MultiplyByConstant. simpl.
    unfold Spec.term, indicator. lra.
  - exists img. rewrite Hrun. simpl. rewrite Hs'. auto.
Qed.

End Synthetic.

Section SyntheticFacts.
Import ITK VNL Driver RBV Spec.

Lemma sum_upto_zero (f : nat -> R) (k : nat) :
  (forall j, (j < k)%nat -> f j = 0) -> sum_upto f k = 0.
Proof.
  induction k as [|k IH]; intros H; simpl; [reflexivity|].
  rewrite IH, H by auto. lra.
Qed.

(** A turn of the loop never leaves a null pointer behind. *)
Lemma add_region_not_null maskImage vRegMeans (i : nat) (s s' : Images) :
  add_region maskImage vRegMeans i s = Returns s' -> deref s' <> None.
Proof.
  unfold add_region.
  destruct (ExtractFilter maskImage (i - 1)) as [region|e]; simpl;
    [|discriminate].
  destruct (Nat.eqb i 1).
  - intros H; injection H as <-. discriminate.
  - destruct (required (deref s)) as [previous|e]; simpl; [|discriminate].
    destruct (AddFilter previous _) as [sum|e]; simpl; [|discriminate].
    intros H; injection H as <-. discriminate.
Qed.

Lemma for_each_add_region_not_null maskImage vRegMeans (m : nat) :
  forall (i : nat) (s s' : Images),
  for_each (add_region maskImage vRegMeans) (seq i (S m)) s = Returns s' ->
  deref s' <> None.
Proof.
  induction m as [|m IH]; intros i s s'.
  - simpl. destruct (add_region maskImage vRegMeans i s) as [t|e] eqn:E;
      simpl; [|discriminate].
    intros H; injection H as <-. now apply add_region_not_null in E.
  - change (seq i (S (S m))) with (i :: seq (S i) (S m)).
    simpl for_each.
    destruct (add_region maskImage vRegMeans i s) as [t|e]; simpl;
      [apply IH|discriminate].
Qed.

(** *** The regional means *)

Lemma length_put (v : vnl_vector) : forall (i : nat) (x : R),
  length (put v i x) = length v.
Proof.
  induction v as [|a v IH]; intros [|i] x; simpl; auto.
Qed.

Lemma nth_put (v : vnl_vector) : forall (i j : nat) (x : R),
  (i < length v)%nat ->
  nth j (put v i x) 0 = if Nat.eqb j i then x else nth j v 0.
Proof.
  induction v as [|a v IH]; intros [|i] [|j] x H; simpl in *;
    try lia; try reflexivity.
  apply IH. lia.
Qed.

Lemma regional_means_from (pet : PETImageType) (mask : MaskImageType)
    (sums : vnl_vector) (m : nat) : forall (k : nat) (vec : vnl_vector),
  on_grid (length pet) mask ->
  (k + m <= length mask)%nat -> length vec = length mask ->
  (forall j, (j < k)%nat -> nth j vec 0 = observed_mean pet mask sums j) ->
  exists means,
    for_each (regional_mean pet mask sums) (seq (S k) m) vec = Returns means /\
    length means = length mask /\
    forall j, (j < k + m)%nat ->
              nth j means 0 = observed_mean pet mask sums j.
Proof.
  induction m as [|m IH]; intros k vec Hgrid Hm Hvec Hset; simpl.
  - exists vec. rewrite Nat.add_0_r. auto.
  - unfold regional_mean at 1. simpl (S k - 1)%nat. rewrite Nat.sub_0_r.
    rewrite ExtractFilter_returns by lia. simpl.
    assert (Hreg : length (nth k mask []) = length pet)
      by (apply (region_on_grid mask (length pet) Hgrid); lia).
    unfold MultiplyFilter. rewrite BinaryFunctor_returns by lia. simpl.
    destruct (IH (S k) (put vec k (observed_mean pet mask sums k)))
      as (means & Hmeans & Hl & Hv); trivial.
    + lia.
    + now rewrite length_put.
    + intros j Hj. rewrite nth_put by lia.
      destruct (Nat.eqb_spec j k) as [->|Hne]; [reflexivity|].
      apply Hset. lia.
    + exists means. split; [exact Hmeans|]. split; [exact Hl|].
      intros j Hj. apply Hv. lia.
Qed.

Lemma regional_means_returns (pet : PETImageType) (mask : MaskImageType)
    (sums : vnl_vector) :
  on_grid (length pet) mask ->
  exists means,
    regional_means pet mask sums (length mask) = Returns means /\
    length means = length mask /\
    forall j, (j < length mask)%nat ->
              nth j means 0 = observed_mean pet mask sums j.
Proof.
  intros Hgrid. unfold regional_means.
  destruct (regional_means_from pet mask sums (length mask) 0
              (set_size (length mask)))
    as (means & Hmeans & Hl & Hv); trivial.
  - unfold set_size. apply repeat_length.
  - intros j Hj. lia.
  - exists means. auto.
Qed.

(** *** Two runs of the loops on small inputs *)

Example getSyntheticPET_three_voxels :
  getSyntheticPET [[1; 0; 0]; [0; 1; 0]] [7; 3] = Returns (Some [7; 3; 0]).
Proof.
  unfold getSyntheticPET. simpl.
  unfold deref, MultiplyByConstant, pixelwise, Add2, Mult, get. simpl.
  repeat f_equal; lra.
Qed.

Example regional_means_two_voxels :
  regional_means [5; 3] [[1; 0]; [0; 1]] [1; 1] 2 = Returns [5; 3].
Proof.
  unfold regional_means. simpl.
  unfold get, GetSum, pixelwise, Mult. simpl.
  repeat f_equal; lra.
Qed.

(** *** getRBVImage *)

Lemma getRBVImage_returns (origPET synthetic : PETImageType)
    (pBlurFilter : PETImageType -> PETImageType) :
  length synthetic = length origPET ->
  length (pBlurFilter synthetic) = length synthetic ->
  getRBVImage origPET (Some synthetic) pBlurFilter
  = Returns (pixelwise Mult origPET
               (pixelwise Div synthetic (pBlurFilter synthetic))).
Proof.
  intros Hs Hb. unfold getRBVImage; simpl.
  unfold DivideFilter. rewrite BinaryFunctor_returns by lia. simpl.
  unfold MultiplyFilter. rewrite BinaryFunctor_returns; [reflexivity|].
  rewrite length_pixelwise; lia.
Qed.

(** *** A run whose files are read and written *)

Lemma length_inverse_mul rd (M : vnl_matrix) (v : vnl_vector) :
  (forall M' v', length (rd M' v') = length v') ->
  length (vnl_matrix_inverse_mul rd M v) = length v.
Proof.
  intros Hrd. unfold vnl_matrix_inverse_mul.
  destruct (gauss_solve (length v) (combine M v)) as [x|] eqn:E; [|apply Hrd].
  clear - E. revert E. generalize (combine M v). generalize (length v).
  intros n; revert x; induction n as [|n IH]; intros x sys; simpl.
  - now intros H; injection H as <-.
  - destruct (find_pivot sys) as [[p others]|]; [|discriminate].
    destruct (gauss_solve n _) as [xs|] eqn:E; [|discriminate].
    intros H; injection H as <-. simpl. f_equal. eapply IH, E.
Qed.

(** The run when the three files are read and written and the GTM filter
    returns: every step returns, for a solver that yields K means and a blur
    that keeps the grid. *)
Lemma main_runs (w : World) cmd mask vVoxelSize pet gtm sums :
  command_Parse w = Some cmd ->
  maskReader_Update w (maskfile cmd) = Some mask ->
  petReader_Update w (petfile cmd) = Some (vVoxelSize, pet) ->
  gtmFilter_Update w mask (variance (FWHM cmd) vVoxelSize)
    = Some (gtm, sums) ->
  (1 <= length mask)%nat ->
  on_grid (length pet) mask ->
  (forall observed, length observed = length mask ->
     length (vnl_matrix_inverse_mul (svd_rank_deficient w) gtm observed)
     = length mask) ->
  (forall img,
     length (DiscreteGaussianImageFilter w (variance (FWHM cmd) vVoxelSize)
                                         img) = length img) ->
  (forall img, petWriter_Update w (outputfile cmd) img = true) ->
  exists observed synthetic,
    let vVariance := variance (FWHM cmd) vVoxelSize in
    let corrected :=
      vnl_matrix_inverse_mul (svd_rank_deficient w) gtm observed in
    let blurred := DiscreteGaussianImageFilter w vVariance synthetic in
    regional_means pet mask sums (length mask) = Returns observed /\
    getSyntheticPET mask corrected = Returns (Some synthetic) /\
    main w =
      {| status := Exited EXIT_SUCCESS;
         cerr := EmptyString;
         written := Some (outputfile cmd,
                          pixelwise Mult pet
                            (pixelwise Div synthetic blurred));
         trace := [ReadMask (maskfile cmd); ReadPET (petfile cmd);
                   UpdateGTM vVariance; CheckMaskDimension; RegionalMeans;
                   ApplyInverse; SyntheticPET; Blur vVariance;
                   WriteOutput (outputfile cmd)] |}.
Proof.
  intros Hcmd Hmask Hpet Hgtm HK Hgrid Hsolve Hblur Hwrite.
  destruct (regional_means_returns pet mask sums Hgrid)
    as (observed & Hobs & Hlobs & _).
  set (corrected := vnl_matrix_inverse_mul (svd_rank_deficient w) gtm observed).
  assert (Hlc : length corrected = length mask) by (apply Hsolve, Hlobs).
  destruct (getSyntheticPET_blend mask corrected (length pet) Hgrid)
    as (synthetic & Hsyn & Hlsyn & _); [lia|lia|].
  exists observed, synthetic. cbv zeta.
  split; [exact Hobs|]. split; [exact Hsyn|].
  unfold main. rewrite Hcmd, Hmask, Hpet, Hgtm.
  unfold correct. simpl (Nat.eqb _ _). cbv iota.
  rewrite Hobs. fold corrected. rewrite Hsyn.
  rewrite getRBVImage_returns by (rewrite ?Hblur; lia).
  rewrite Hwrite. reflexivity.
Qed.

Lemma main_completes (w : World) cmd mask vVoxelSize pet gtm sums :
  command_Parse w = Some cmd ->
  maskReader_Update w (maskfile cmd) = Some mask ->
  petReader_Update w (petfile cmd) = Some (vVoxelSize, pet) ->
  gtmFilter_Update w mask (variance (FWHM cmd) vVoxelSize)
    = Some (gtm, sums) ->
  (1 <= length mask)%nat ->
  on_grid (length pet) mask ->
  (forall M v, length (svd_rank_deficient w M v) = length v) ->
  (forall v img, length (DiscreteGaussianImageFilter w v img) = length img) ->
  (forall img, petWriter_Update w (outputfile cmd) img = true) ->
  exists image,
    main w =
      {| status := Exited EXIT_SUCCESS;
         cerr := EmptyString;
         written := Some (outputfile cmd, image);
         trace := [ReadMask (maskfile cmd); ReadPET (petfile cmd);
                   UpdateGTM (variance (FWHM cmd) vVoxelSize);
                   CheckMaskDimension; RegionalMeans;
                   ApplyInverse; SyntheticPET;
                   Blur (variance (FWHM cmd) vVoxelSize);
                   WriteOutput (outputfile cmd)] |}.
Proof.
  intros Hcmd Hmask Hpet Hgtm HK Hgrid Hrd Hblur Hwrite.
  destruct (main_runs w cmd mask vVoxelSize pet gtm sums)
    as (observed & synthetic & _ & _ & Hmain); auto.
  - intros observed Hl. now rewrite length_inverse_mul.
  - eauto.
Qed.

End SyntheticFacts.

(* ================================================================= *)
(** ** No blur *)

Section ZeroPSF.
Import ITK VNL Driver Spec.

Lemma nth_map_lt {A B : Type} (f : A -> B) (l : list A) (i : nat) (d : A)
    (d' : B) :
  (i < length l)%nat -> nth i (map f l) d' = f (nth i l d).
Proof.
  intros H. rewrite (nth_indep _ d' (f d)) by (now rewrite length_map).
  apply map_nth.
Qed.

(** *** The identity matrix *)

Lemma dot_unit (i : nat) : forall (n s : nat) (x : vnl_vector),
  length x = n ->
  dot (map (fun j => if Nat.eqb i j then 1 else 0) (seq s n)) x
  = if (s <=? i)%nat && (i <? s + n)%nat then nth (i - s) x 0 else 0.
Proof.
  induction n as [|n IH]; intros s [|x0 x] Hx; simpl in Hx; try discriminate.
  - simpl. rewrite Nat.add_0_r.
    destruct (Nat.leb_spec s i), (Nat.ltb_spec i s); simpl; trivial; lia.
  - simpl seq. simpl map. simpl dot. rewrite (IH (S s) x) by lia.
    replace (S s + n)%nat with (s + S n)%nat by lia.
    destruct (Nat.eqb_spec i s) as [Heq|Hne];
      destruct (Nat.leb_spec (S s) i), (Nat.leb_spec s i),
               (Nat.ltb_spec i (s + S n));
      try lia; simpl andb; cbv iota; try lra.
    + replace (i - s)%nat with 0%nat by lia. simpl. lra.
    + replace (i - s)%nat with (S (i - S s)) by lia. simpl. lra.
Qed.

Lemma length_identity (n : nat) : length (identity n) = n.
Proof. unfold identity. now rewrite length_map, length_seq. Qed.

Lemma nth_identity (n i : nat) :
  (i < n)%nat ->
  nth i (identity n) []
  = map (fun j => if Nat.eqb i j then 1 else 0) (seq 0 n).
Proof.
  intros H. unfold identity.
  rewrite (nth_map_lt _ _ _ 0%nat) by (now rewrite length_seq).
  now rewrite seq_nth.
Qed.

Lemma identity_square (n : nat) : square n (identity n).
Proof.
  split; [apply length_identity|].
  unfold identity. rewrite Forall_map. apply Forall_forall. intros i _.
  now rewrite length_map, length_seq.
Qed.

Lemma mat_vec_identity (n : nat) (x : vnl_vector) :
  length x = n -> mat_vec (identity n) x = x.
Proof.
  intros Hx. apply (nth_ext _ _ 0 0).
  - now rewrite length_mat_vec, length_identity.
  - intros i Hi. rewrite length_mat_vec, length_identity in Hi.
    unfold mat_vec.
    rewrite (nth_map_lt (A := vnl_vector) _ _ _ [])
      by (now rewrite length_identity).
    rewrite nth_identity, (dot_unit i n 0 x Hx) by trivial.
    destruct (Nat.ltb_spec i (0 + n)); [|lia]. simpl.
    now rewrite Nat.sub_0_r.
Qed.

Lemma identity_inverse_of (n : nat) : inverse_of n (identity n) (identity n).
Proof.
  intros x Hx. now rewrite !(mat_vec_identity n x Hx).
Qed.

(** *** Sums over masks *)

Lemma GetSum_nil : GetSum [] = 0.
Proof. reflexivity. Qed.

Lemma GetSum_product_zero : forall (a b : PETImageType),
  (forall v, nth v a 0 * nth v b 0 = 0) ->
  GetSum (pixelwise Mult a b) = 0.
Proof.
  induction a as [|x a IH]; intros [|y b] H; try reflexivity.
  unfold pixelwise; simpl. rewrite GetSum_cons.
  fold (pixelwise Mult a b). rewrite IH.
  - specialize (H 0%nat). simpl in H. unfold Mult. lra.
  - intros v. apply (H (S v)).
Qed.

Lemma GetSum_square_binary (a : PETImageType) :
  Forall (fun x => x = 0 \/ x = 1) a ->
  GetSum (pixelwise Mult a a) = GetSum a.
Proof.
  induction 1 as [|x a Hx _ IH]; [reflexivity|].
  unfold pixelwise; simpl. fold (pixelwise Mult a a).
  rewrite !GetSum_cons, IH. unfold Mult. destruct Hx as [-> | ->]; lra.
Qed.

(** *** The GTM without blur *)

Lemma GTM_without_blur blur (mask : MaskImageType) (psf : VectorType) :
  (forall img, blur psf img = img) ->
  (1 <= length mask)%nat ->
  binary mask -> disjoint mask -> no_empty_region mask ->
  GTMFilter.Update blur mask psf
  = Some (identity (length mask), map GetSum mask).
Proof.
  intros Hblur HK Hbin Hdis Hne. unfold GTMFilter.Update.
  destruct mask as [|r0 rest] eqn:Emask; [simpl in HK; lia|].
  rewrite <- Emask in *. clear r0 rest Emask.
  match goal with
  | |- Some (?m, _) = _ =>
      assert (E : m = identity (length mask)); [|now rewrite E]
  end.
  apply (nth_ext _ _ [] []).
  - now rewrite length_map, length_identity.
  - intros i Hi. rewrite length_map in Hi.
    rewrite (nth_map_lt (A := PETImageType) _ _ _ []) by trivial.
    rewrite nth_identity by trivial.
    apply (nth_ext _ _ 0 0).
    + now rewrite !length_map, length_seq.
    + intros j Hj. rewrite length_map in Hj.
      rewrite (nth_map_lt (A := PETImageType) _ _ _ []) by trivial.
      rewrite (nth_map_lt _ _ _ 0%nat) by (now rewrite length_seq).
      rewrite seq_nth by trivial. simpl (0 + j)%nat.
      rewrite Hblur.
      unfold no_empty_region, binary in *. rewrite Forall_forall in Hne, Hbin.
      assert (Hin : In (nth i mask []) mask) by (now apply nth_In).
      destruct (Nat.eqb_spec i j) as [<-|Hij].
      * rewrite GetSum_square_binary by (now apply Hbin).
        field. now apply Hne.
      * rewrite GetSum_product_zero.
        -- unfold Rdiv. lra.
        -- intros v. apply (Hdis j i v). auto.
Qed.

(** *** The run without blur *)

Lemma zero_psf_run (w : RBV.World) cmd mask vVoxelSize pet :
  RBV.command_Parse w = Some cmd ->
  RBV.maskReader_Update w (RBV.maskfile cmd) = Some mask ->
  RBV.petReader_Update w (RBV.petfile cmd) = Some (vVoxelSize, pet) ->
  RBV.variance (RBV.FWHM cmd) vVoxelSize = (0, 0, 0) ->
  (forall img, RBV.DiscreteGaussianImageFilter w (0, 0, 0) img = img) ->
  RBV.gtmFilter_Update w
    = GTMFilter.Update (RBV.DiscreteGaussianImageFilter w) ->
  (1 <= length mask)%nat ->
  on_grid (length pet) mask ->
  binary mask -> disjoint mask -> no_empty_region mask ->
  (forall img, RBV.petWriter_Update w (RBV.outputfile cmd) img = true) ->
  exists observed synthetic image,
    RBV.gtmFilter_Update w mask (0, 0, 0)
      = Some (identity (length mask), map GetSum mask) /\
    RBV.regional_means pet mask (map GetSum mask) (length mask)
      = Returns observed /\
    vnl_matrix_inverse_mul (RBV.svd_rank_deficient w)
                           (identity (length mask)) observed = observed /\
    RBV.getSyntheticPET mask observed = Returns (Some synthetic) /\
    status (RBV.main w) = Exited EXIT_SUCCESS /\
    written (RBV.main w) = Some (RBV.outputfile cmd, image) /\
    length image = length pet /\
    forall voxel, (voxel < length pet)%nat ->
      (nth voxel synthetic 0 <> 0 -> nth voxel image 0 = nth voxel pet 0) /\
      (nth voxel synthetic 0 = 0 ->
       nth voxel image 0 = nth voxel pet 0 * float_max).
Proof.
  intros Hcmd Hmask Hpet Hvar Hblur Hfilter HK Hgrid Hbin Hdis Hne Hwrite.
  assert (Hgtm : RBV.gtmFilter_Update w mask (0, 0, 0)
                 = Some (identity (length mask), map GetSum mask)).
  { rewrite Hfilter. now apply GTM_without_blur. }
  assert (Hsolve : forall observed, length observed = length mask ->
            vnl_matrix_inverse_mul (RBV.svd_rank_deficient w)
                                   (identity (length mask)) observed
            = observed).
  { intros observed Hl.
    destruct (inverse_mul_invertible (RBV.svd_rank_deficient w)
                (length mask) (identity (length mask))
                (identity (length mask)) observed) as [Heq _].
    - apply identity_square.
    - exact Hl.
    - apply identity_inverse_of.
    - rewrite Heq. now apply mat_vec_identity. }
  destruct (main_runs w cmd mask vVoxelSize pet
              (identity (length mask)) (map GetSum mask))
    as (observed & synthetic & Hobs & Hsyn & Hmain); trivial.
  - now rewrite Hvar.
  - intros observed Hl. now rewrite Hsolve.
  - intros img. now rewrite Hvar, Hblur.
  - cbv zeta in Hobs, Hsyn, Hmain.
    assert (Hlobs : length observed = length mask).
    { destruct (regional_means_returns pet mask (map GetSum mask) Hgrid)
        as (observed' & Hobs' & Hl' & _).
      rewrite Hobs in Hobs'. now injection Hobs' as ->. }
    rewrite Hsolve in Hsyn by exact Hlobs.
    rewrite Hvar, Hblur in Hmain.
    assert (Hlsyn : length synthetic = length pet).
    { destruct (getSyntheticPET_blend mask observed (length pet) Hgrid)
        as (synthetic' & Hsyn' & Hl' & _); [lia|lia|].
      rewrite Hsyn in Hsyn'. now injection Hsyn' as ->. }
    exists observed, synthetic,
      (pixelwise Mult pet (pixelwise Div synthetic synthetic)).
    split; [exact Hgtm|]. split; [exact Hobs|].
    split; [now apply Hsolve|]. split; [exact Hsyn|].
    rewrite Hmain. split; [reflexivity|]. split; [reflexivity|].
    split; [rewrite length_pixelwise; [reflexivity|]; rewrite length_pixelwise; lia|].
    intros voxel Hlt.
    rewrite nth_pixelwise by (rewrite ?length_pixelwise; lia).
    rewrite nth_pixelwise by lia. unfold Mult. split.
    + intros Hnz. rewrite Div_nonzero by exact Hnz. field. exact Hnz.
    + intros ->. now rewrite Div_zero.
Qed.

End ZeroPSF.

(* ================================================================= *)
(** ** The claims *)

Section Claims.
Import ITK VNL Driver Spec Scenario.

(** *** The linear solver *)

(** C1 (as amended).  For an invertible GTM [M], with inverse [N], the solver
    of line 274 returns the vector [corrected] with [M * corrected =
    observed], and that vector is [N * observed]. *)
Theorem linear_solver_applies_inverse rank_deficient (n : nat)
    (M N : vnl_matrix) (observed : vnl_vector) :
  square n M -> length observed = n -> inverse_of n M N ->
  let corrected := vnl_matrix_inverse_mul rank_deficient M observed in
  mat_vec M corrected = observed /\ corrected = mat_vec N observed.
Proof.
  intros HM Hobs Hinv corrected.
  destruct (inverse_mul_invertible rank_deficient n M N observed HM Hobs Hinv)
    as [Heq Hsol].
  split; [exact Hsol|exact Heq].
Qed.

Lemma cross_bleed_square : square 2 cross_bleed.
Proof. split; [reflexivity|repeat constructor]. Qed.

Lemma cross_bleed_inverse_of : inverse_of 2 cross_bleed cross_bleed_inverse.
Proof.
  intros [|a [|b [|c x]]] Hx; simpl in Hx; try discriminate.
  simpl. f_equal; [lra|f_equal; lra].
Qed.

(** The scenario with the observed means that [100, 0] gives under the
    matrix: [80, 20] is corrected to [100, 0]. *)
Lemma cross_bleed_80_20 :
  vnl_matrix_inverse_mul keep cross_bleed [80; 20] = [100; 0].
Proof.
  destruct (linear_solver_applies_inverse keep 2 cross_bleed
              cross_bleed_inverse [80; 20]
              cross_bleed_square eq_refl cross_bleed_inverse_of)
    as [_ Heq].
  rewrite Heq. simpl. f_equal; [lra|f_equal; lra].
Defined.

(** C1, the scenario as the spec gives it: the observed means [84, 16] are
    corrected to [320/3, -20/3], more than 6 away from [100, 0]; and [100, 0]
    does not satisfy [M * corrected = [84, 16]]. *)
Lemma cross_bleed_84_16 :
  (forall rank_deficient,
     vnl_matrix_inverse_mul rank_deficient cross_bleed [84; 16]
     = [320/3; -(20/3)]) /\
  mat_vec cross_bleed [100; 0] <> [84; 16] /\
  6 < 320/3 - 100 /\ -(20/3) < 0 - 6.
Proof.
  split; [|split; [|lra]].
  - intros rd.
    destruct (inverse_mul_invertible rd 2 cross_bleed cross_bleed_inverse
                [84; 16] cross_bleed_square eq_refl cross_bleed_inverse_of)
      as [Heq _].
    rewrite Heq. simpl. f_equal; [lra|f_equal; lra].
  - simpl. intros H. injection H as H _. lra.
Qed.

(** *** The synthetic volume *)

(** C7.  For a mask of K >= 1 regions on a grid of [n] voxels and K corrected
    means, [getSyntheticPET] returns a volume on that grid whose value at
    every voxel is the sum over the regions j of [correctedMean[j]] times
    the indicator of region j at the voxel; a voxel where every indicator is
    0 has value 0. *)
Theorem synthetic_volume_is_blend (n : nat) (mask : MaskImageType)
    (correctedMean : vnl_vector) :
  on_grid n mask -> length mask = length correctedMean ->
  (1 <= length mask)%nat ->
  exists synthetic,
    RBV.getSyntheticPET mask correctedMean = Returns (Some synthetic) /\
    length synthetic = n /\
    (forall voxel, (voxel < n)%nat ->
       nth voxel synthetic 0 = blend mask correctedMean voxel) /\
    (forall voxel, (voxel < n)%nat ->
       (forall j, (j < length mask)%nat -> indicator mask j voxel = 0) ->
       nth voxel synthetic 0 = 0).
Proof.
  intros Hgrid Hlen HK.
  destruct (getSyntheticPET_blend mask correctedMean n Hgrid)
    as (synthetic & Hsyn & Hl & Hv); [lia|exact Hlen|].
  exists synthetic. split; [exact Hsyn|]. split; [exact Hl|].
  split; [exact Hv|].
  intros voxel Hlt Hout. rewrite Hv by exact Hlt.
  unfold blend. apply sum_upto_zero. intros j Hj.
  unfold term. rewrite Hout by lia. lra.
Qed.

(** Three voxels, two regions with means 7 and 3, the third voxel in no
    region. *)
Lemma synthetic_volume_two_regions :
  exists synthetic,
    RBV.getSyntheticPET [[1; 0; 0]; [0; 1; 0]] [7; 3]
      = Returns (Some synthetic) /\
    length synthetic = 3%nat /\
    (forall voxel, (voxel < 3)%nat ->
       nth voxel synthetic 0
       = blend [[1; 0; 0]; [0; 1; 0]] [7; 3] voxel) /\
    (forall voxel, (voxel < 3)%nat ->
       (forall j, (j < 2)%nat ->
          indicator [[1; 0; 0]; [0; 1; 0]] j voxel = 0) ->
       nth voxel synthetic 0 = 0).
Proof.
  apply (synthetic_volume_is_blend 3 [[1; 0; 0]; [0; 1; 0]] [7; 3]).
  - repeat constructor.
  - reflexivity.
  - simpl; lia.
Defined.

(** C10.  With no regional mean (K = 0) [getSyntheticPET] returns the null
    pointer and throws nothing; it returns the null pointer in no other
    case, and an image only for K >= 1. *)
Theorem synthetic_volume_null_without_regions (mask : MaskImageType) :
  RBV.getSyntheticPET mask [] = Returns None /\
  (forall vRegMeans,
     RBV.getSyntheticPET mask vRegMeans = Returns None -> vRegMeans = []) /\
  (forall vRegMeans image,
     RBV.getSyntheticPET mask vRegMeans = Returns (Some image) ->
     (1 <= length vRegMeans)%nat).
Proof.
  split; [reflexivity|]. split.
  - intros [|x v] H; [reflexivity|]. exfalso. revert H.
    unfold RBV.getSyntheticPET. simpl length.
    destruct (for_each _ _ _) as [s|e] eqn:E; simpl; [|discriminate].
    intros H; injection H as H. revert H.
    now apply for_each_add_region_not_null in E.
  - intros [|x v] image H; [discriminate H|simpl; lia].
Qed.

(** *** The voxel-wise correction *)

(** C6.  For a synthetic volume on the grid of the original one and a blur
    that keeps the grid, [getRBVImage] returns the volume whose value at
    every voxel is the original value times the value of ITK's divide
    functor on the synthetic and the blurred synthetic value; where the
    blurred value is not zero that is original * (synthetic / blurred).
    The function has no case of its own for a zero blurred value. *)
Theorem rbv_image_is_original_times_ratio (origPET synthetic : PETImageType)
    (pBlurFilter : PETImageType -> PETImageType) :
  length synthetic = length origPET ->
  length (pBlurFilter synthetic) = length synthetic ->
  exists corrected,
    RBV.getRBVImage origPET (Some synthetic) pBlurFilter = Returns corrected /\
    length corrected = length origPET /\
    forall voxel, (voxel < length origPET)%nat ->
      let blurred := nth voxel (pBlurFilter synthetic) 0 in
      nth voxel corrected 0
      = nth voxel origPET 0 * Div (nth voxel synthetic 0) blurred /\
      (blurred <> 0 ->
       nth voxel corrected 0
       = nth voxel origPET 0 * (nth voxel synthetic 0 / blurred)).
Proof.
  intros Hs Hb. eexists. split; [now apply getRBVImage_returns|].
  assert (Hratio : length (pixelwise Div synthetic (pBlurFilter synthetic))
                   = length origPET)
    by (rewrite length_pixelwise; lia).
  split; [rewrite length_pixelwise; lia|].
  intros voxel Hlt blurred.
  rewrite nth_pixelwise, nth_pixelwise by lia.
  fold blurred. unfold Mult. split; [reflexivity|].
  intros Hnz. now rewrite Div_nonzero.
Qed.

(** Two voxels, a blur that halves the first value and wipes the second. *)
Lemma rbv_image_two_voxels :
  exists corrected,
    RBV.getRBVImage [5; 3] (Some [4; 2]) (fun _ => [2; 0]) = Returns corrected /\
    length corrected = 2%nat /\
    forall voxel, (voxel < 2)%nat ->
      let blurred := nth voxel [2; 0] 0 in
      nth voxel corrected 0
      = nth voxel [5; 3] 0 * Div (nth voxel [4; 2] 0) blurred /\
      (blurred <> 0 ->
       nth voxel corrected 0
       = nth voxel [5; 3] 0 * (nth voxel [4; 2] 0 / blurred)).
Proof.
  apply (rbv_image_is_original_times_ratio [5; 3] [4; 2] (fun _ => [2; 0]));
    reflexivity.
Defined.

End Claims.

(* ================================================================= *)
(** ** The runs of the two drivers *)

Section Runs.
Import ITK VNL Driver Spec Scenario.

(** *** The variance handed to the filters *)

Lemma RBV_variance_formula (fwhm spacing : VectorType) :
  RBV.variance fwhm spacing = voxel_variance fwhm spacing.
Proof. destruct fwhm as [[fx fy] fz], spacing as [[sx sy] sz]. reflexivity. Qed.

Lemma IterativeYang_variance_formula (fwhm spacing : VectorType) :
  IterativeYang.variance fwhm spacing = mm_variance fwhm.
Proof. destruct fwhm as [[fx fy] fz]. reflexivity. Qed.

(** The steps of [main] after the GTM filter hand no variance to anything
    but the blur, and the blur gets the variance [main] computed. *)
Lemma correct_trace (w : RBV.World) cmd mask pet vVariance gtm sums psf :
  ~ In (UpdateGTM psf)
       (trace (RBV.correct w cmd mask pet vVariance gtm sums)) /\
  (In (Blur psf) (trace (RBV.correct w cmd mask pet vVariance gtm sums)) ->
   psf = vVariance).
Proof.
  unfold RBV.correct. simpl (Nat.eqb _ _). cbv iota.
  destruct (RBV.regional_means _ _ _ _) as [observed|e]; simpl;
    [|intuition discriminate].
  destruct (RBV.getSyntheticPET _ _) as [synthetic|e]; simpl;
    [|intuition discriminate].
  destruct (RBV.getRBVImage _ _ _) as [image|e]; simpl;
    [|intuition (discriminate || congruence)].
  destruct (RBV.petWriter_Update _ _ _); simpl;
    intuition (discriminate || congruence).
Qed.

Lemma sqrt_2_ln_2_positive : 0 < 2 * sqrt (2 * ln 2).
Proof.
  assert (H := ln_lt_2).
  assert (0 < sqrt (2 * ln 2)) by (apply sqrt_lt_R0; lra).
  lra.
Qed.

(** C2 (as amended).  In a run of RBV the variance handed to the GTM filter
    and to the blur is, per axis, (FWHM / (2 sqrt(2 ln 2)) / spacing)^2 with
    the spacing of the PET image that was read.  In a run of Iterative Yang
    the variance handed to the filter is (FWHM / (2 sqrt(2 ln 2)))^2: it is
    not divided by the spacing. *)
Theorem psf_variance_by_mode :
  (forall (w : RBV.World) psf,
     In (UpdateGTM psf) (trace (RBV.main w)) \/
     In (Blur psf) (trace (RBV.main w)) ->
     exists cmd spacing pet,
       RBV.command_Parse w = Some cmd /\
       RBV.petReader_Update w (RBV.petfile cmd) = Some (spacing, pet) /\
       psf = voxel_variance (RBV.FWHM cmd) spacing) /\
  (forall (w : IterativeYang.World) psf iterations,
     In (UpdateIterativeYang psf iterations) (trace (IterativeYang.main w)) ->
     exists cmd spacing pet,
       IterativeYang.command_Parse w = Some cmd /\
       IterativeYang.petReader_Update w (IterativeYang.petfile cmd)
         = Some (spacing, pet) /\
       psf = mm_variance (IterativeYang.FWHM cmd)).
Proof.
  split.
  - intros w psf. unfold RBV.main.
    destruct (RBV.command_Parse w) as [cmd|];
      cbn [trace halt after In]; [|tauto].
    destruct (RBV.maskReader_Update w _) as [mask|];
      cbn [trace halt after In]; [|intuition discriminate].
    destruct (RBV.petReader_Update w _) as [[spacing pet]|] eqn:Hpet;
      cbn [trace halt after In]; [|intuition discriminate].
    intros H. exists cmd, spacing, pet. split; [reflexivity|].
    split; [exact Hpet|]. rewrite <- RBV_variance_formula.
    destruct (RBV.gtmFilter_Update w _ _) as [[gtm sums]|];
      cbn [trace halt after In] in H.
    + destruct (correct_trace w cmd mask pet
                  (RBV.variance (RBV.FWHM cmd) spacing) gtm sums psf)
        as [Hgtm Hblur].
      intuition (discriminate || congruence).
    + intuition (discriminate || congruence).
  - intros w psf iterations. unfold IterativeYang.main.
    destruct (IterativeYang.command_Parse w) as [cmd|];
      cbn [trace halt after In]; [|tauto].
    destruct (IterativeYang.maskReader_Update w _) as [mask|];
      cbn [trace halt after In]; [|intuition discriminate].
    destruct (IterativeYang.petReader_Update w _) as [[spacing pet]|] eqn:Hpet;
      cbn [trace halt after In]; [|intuition discriminate].
    intros H. exists cmd, spacing, pet. split; [reflexivity|].
    split; [exact Hpet|].
    rewrite <- (IterativeYang_variance_formula _ spacing).
    destruct (IterativeYang.iyFilter_Update w _ _ _ _ _) as [image|err];
      cbn [trace halt after In] in H.
    + destruct (IterativeYang.petWriter_Update w _ _);
        cbn [trace halt after finish In] in H;
        intuition (discriminate || congruence).
    + intuition (discriminate || congruence).
Qed.

(** C2, Iterative Yang with FWHM 6 mm on voxels of 2 mm: the variance handed
    to the filter is not the one divided by the spacing. *)
Lemma iterative_yang_variance_not_scaled :
  exists psf,
    In (UpdateIterativeYang psf 10%Z) (trace (IterativeYang.main iy_world)) /\
    fst (fst psf) <> variance_axis 6 2.
Proof.
  exists (IterativeYang.variance (6, 6, 6) (2, 2, 2)). split.
  - simpl. auto.
  - simpl. unfold variance_axis.
    assert (Hc := sqrt_2_ln_2_positive).
    set (c := 2 * sqrt (2 * ln 2)) in *.
    assert (Hk : 0 < 6 / c) by (apply Rdiv_lt_0_compat; lra).
    set (k := 6 / c) in *. intros H.
    assert (Hq : k * (k * 1) = k / 2 * (k / 2 * 1)) by exact H.
    nra.
Qed.

(** *** The regional means *)

(** C3 (as amended).  The loop of lines 234-265 returns a vector of K means
    for every vector of region sums, zero entries included: it checks no
    divisor and raises no error.  The mean of a region whose sum is not zero
    is sum(activity * indicator_j) / S[j]. *)
Theorem regional_means_divide_unchecked (pet : PETImageType)
    (mask : MaskImageType) (S : vnl_vector) :
  on_grid (length pet) mask -> length S = length mask ->
  exists observed,
    RBV.regional_means pet mask S (length mask) = Returns observed /\
    length observed = length mask /\
    forall j, (j < length mask)%nat -> get S j <> 0 ->
              get observed j = observed_mean pet mask S j.
Proof.
  intros Hgrid _.
  destruct (regional_means_returns pet mask S Hgrid)
    as (observed & Hobs & Hl & Hv).
  exists observed. split; [exact Hobs|]. split; [exact Hl|].
  intros j Hj _. now apply Hv.
Qed.

(** Two regions of which the second has no voxel. *)
Lemma regional_means_with_empty_region :
  exists observed,
    RBV.regional_means [5; 3] [[1; 0]; [0; 0]] [1; 0] 2 = Returns observed /\
    length observed = 2%nat /\
    forall j, (j < 2)%nat -> get [1; 0] j <> 0 ->
              get observed j = observed_mean [5; 3] [[1; 0]; [0; 0]] [1; 0] j.
Proof.
  apply (regional_means_divide_unchecked [5; 3] [[1; 0]; [0; 0]] [1; 0]).
  - repeat constructor.
  - reflexivity.
Defined.

(** C3, a region without a voxel: its sum is 0, and the run raises no error
    and exits with code 0, whatever the matrix, the blur and the solver
    are. *)
Lemma empty_region_raises_nothing :
  get (map GetSum [[1; 0]; [0; 0]]) 1 = 0 /\
  forall gtm blur rank_deficient,
    (forall v img, length (blur v img) = length img) ->
    (forall M v, length (rank_deficient M v) = length v) ->
    status (RBV.main (empty_region_world gtm blur rank_deficient))
      = Exited EXIT_SUCCESS /\
    cerr (RBV.main (empty_region_world gtm blur rank_deficient))
      = EmptyString.
Proof.
  split.
  - unfold get, GetSum; simpl. lra.
  - intros gtm blur rd Hblur Hrd.
    destruct (main_completes (empty_region_world gtm blur rd)
                (rbv_command (6, 6, 6)) [[1; 0]; [0; 0]] (2, 2, 2) [5; 3]
                gtm (map GetSum [[1; 0]; [0; 0]]))
      as (image & Hmain);
      try reflexivity; trivial.
    + simpl; lia.
    + repeat constructor.
    + rewrite Hmain. split; reflexivity.
Qed.

(** *** The linear solve in a run *)

(** C5 (as amended).  [main] applies the inverse to whatever matrix the GTM
    filter returned, with no test of singularity or conditioning: when the
    files are read, the GTM filter returns, the mask has K >= 1 regions on
    the grid of the PET image and the output can be written, the run
    reaches the linear solve, exits with code 0, prints no error and writes
    an image. *)
Theorem run_completes_for_any_gtm (w : RBV.World) cmd mask vVoxelSize pet
    gtm sums :
  RBV.command_Parse w = Some cmd ->
  RBV.maskReader_Update w (RBV.maskfile cmd) = Some mask ->
  RBV.petReader_Update w (RBV.petfile cmd) = Some (vVoxelSize, pet) ->
  RBV.gtmFilter_Update w mask (RBV.variance (RBV.FWHM cmd) vVoxelSize)
    = Some (gtm, sums) ->
  (1 <= length mask)%nat ->
  on_grid (length pet) mask ->
  (forall M v, length (RBV.svd_rank_deficient w M v) = length v) ->
  (forall v img,
     length (RBV.DiscreteGaussianImageFilter w v img) = length img) ->
  (forall img, RBV.petWriter_Update w (RBV.outputfile cmd) img = true) ->
  status (RBV.main w) = Exited EXIT_SUCCESS /\
  cerr (RBV.main w) = EmptyString /\
  In ApplyInverse (trace (RBV.main w)) /\
  exists image, written (RBV.main w) = Some (RBV.outputfile cmd, image).
Proof.
  intros Hcmd Hmask Hpet Hgtm HK Hgrid Hrd Hblur Hwrite.
  destruct (main_completes w cmd mask vVoxelSize pet gtm sums
              Hcmd Hmask Hpet Hgtm HK Hgrid Hrd Hblur Hwrite)
    as (image & Hmain).
  rewrite Hmain. simpl. repeat split; eauto 10.
Qed.

(** The run on two equal regions, whose matrix is singular. *)
Lemma run_completes_for_equal_rows :
  status (RBV.main (duplicate_regions_world no_blur keep))
    = Exited EXIT_SUCCESS /\
  cerr (RBV.main (duplicate_regions_world no_blur keep)) = EmptyString /\
  In ApplyInverse (trace (RBV.main (duplicate_regions_world no_blur keep))) /\
  exists image,
    written (RBV.main (duplicate_regions_world no_blur keep))
    = Some ("out.nii"%string, image).
Proof.
  apply (run_completes_for_any_gtm (duplicate_regions_world no_blur keep)
           (rbv_command (6, 6, 6)) [[1; 1]; [1; 1]] (2, 2, 2) [4; 6]
           [[1; 1]; [1; 1]] [2; 2]); try reflexivity.
  - simpl; lia.
  - repeat constructor.
Defined.

(** C5, a singular GTM: the matrix of two equal regions sends [1, -1] to
    zero, and the run exits with code 0 and writes an image, whatever
    vector the SVD returns and whatever the blur is. *)
Lemma singular_gtm_is_not_refused :
  mat_vec [[1; 1]; [1; 1]] [1; -1] = [0; 0] /\
  forall blur rank_deficient,
    (forall v img, length (blur v img) = length img) ->
    (forall M v, length (rank_deficient M v) = length v) ->
    status (RBV.main (duplicate_regions_world blur rank_deficient))
      = Exited EXIT_SUCCESS /\
    exists image,
      written (RBV.main (duplicate_regions_world blur rank_deficient))
      = Some ("out.nii"%string, image).
Proof.
  split.
  - simpl. f_equal; [lra|f_equal; lra].
  - intros blur rd Hblur Hrd.
    destruct (main_completes (duplicate_regions_world blur rd)
                (rbv_command (6, 6, 6)) [[1; 1]; [1; 1]] (2, 2, 2) [4; 6]
                [[1; 1]; [1; 1]] [2; 2])
      as (image & Hmain);
      try reflexivity; trivial.
    + simpl; lia.
    + repeat constructor.
    + rewrite Hmain. simpl. eauto.
Qed.

(** *** The mask's dimension *)

(** C4, a mask file with one 3-D volume: the GTM filter runs before the
    dimension is looked at, the test passes, and the run corrects the image
    with one region and exits with code 0. *)
Theorem volume_mask_is_not_refused :
  status (RBV.main volume_mask_world) = Exited EXIT_SUCCESS /\
  cerr (RBV.main volume_mask_world) = EmptyString /\
  trace (RBV.main volume_mask_world)
  = [ReadMask "mask.nii"; ReadPET "pet.nii";
     UpdateGTM (RBV.variance (6, 6, 6) (2, 2, 2)); CheckMaskDimension;
     RegionalMeans; ApplyInverse; SyntheticPET;
     Blur (RBV.variance (6, 6, 6) (2, 2, 2)); WriteOutput "out.nii"].
Proof.
  destruct (main_completes volume_mask_world (rbv_command (6, 6, 6))
              [[1; 1]] (2, 2, 2) [5; 3] [[1]] [2])
    as (image & Hmain); try reflexivity.
  - repeat constructor.
  - rewrite Hmain. repeat split.
Qed.

(** X1.  In every run the error for a mask that is not 4-D is never printed, and
    the dimension is looked at only after the GTM filter has run. *)
Lemma mask_dimension_test_is_void (w : RBV.World) :
  (forall file,
     cerr (RBV.main w)
     <> ("[Error]" ++ tab ++ "Mask file: " ++ file ++ " must be 4-D!"
         ++ endl)%string) /\
  (forall before later,
     trace (RBV.main w) = before ++ CheckMaskDimension :: later ->
     exists psf, In (UpdateGTM psf) before).
Proof.
  assert (Hshort : forall (t : list Event),
            (length t <= 3)%nat -> ~ In CheckMaskDimension t ->
            forall before later,
              t = before ++ CheckMaskDimension :: later ->
              exists psf, In (UpdateGTM psf) before).
  { intros t _ Hnot before later ->. exfalso. apply Hnot.
    apply in_or_app. right. left. reflexivity. }
  unfold RBV.main.
  destruct (RBV.command_Parse w) as [cmd|]; cbn [trace cerr halt after];
    [|split; [discriminate|apply Hshort; simpl; [lia|tauto]]].
  destruct (RBV.maskReader_Update w _) as [mask|]; cbn [trace cerr halt after];
    [|split; [discriminate
             |apply Hshort; simpl; [lia|intuition discriminate]]].
  destruct (RBV.petReader_Update w _) as [[spacing pet]|];
    cbn [trace cerr halt after];
    [|split; [discriminate
             |apply Hshort; simpl; [lia|intuition discriminate]]].
  destruct (RBV.gtmFilter_Update w _ _) as [[gtm sums]|];
    cbn [trace cerr halt after];
    [|split; [discriminate
             |apply Hshort; simpl; [lia|intuition discriminate]]].
  split.
  - intros file. unfold RBV.correct. simpl (Nat.eqb _ _). cbv iota.
    destruct (RBV.regional_means _ _ _ _) as [observed|e]; simpl;
      [|discriminate].
    destruct (RBV.getSyntheticPET _ _) as [synthetic|e]; simpl;
      [|discriminate].
    destruct (RBV.getRBVImage _ _ _) as [image|e]; simpl; [|discriminate].
    destruct (RBV.petWriter_Update _ _ _); simpl; discriminate.
  - intros before later H.
    exists (RBV.variance (RBV.FWHM cmd) spacing).
    destruct before as [|e [|e' [|e'' b]]]; cbn [app] in H.
    + discriminate H.
    + injection H as _ H. discriminate H.
    + injection H as _ _ H. discriminate H.
    + injection H as _ _ H _. subst e''. simpl. auto.
Qed.

(** *** What a failing run prints *)

(** C9, a run of RBV in which both files are read and the GTM filter throws:
    the run exits with [EXIT_FAILURE] and prints that the PET file cannot
    be read, the very text of a run in which the PET file cannot be read. *)
Theorem gtm_failure_is_reported_as_unreadable_pet (w : RBV.World) cmd mask
    vVoxelSize pet :
  RBV.command_Parse w = Some cmd ->
  RBV.maskReader_Update w (RBV.maskfile cmd) = Some mask ->
  RBV.petReader_Update w (RBV.petfile cmd) = Some (vVoxelSize, pet) ->
  RBV.gtmFilter_Update w mask (RBV.variance (RBV.FWHM cmd) vVoxelSize) = None ->
  status (RBV.main w) = Exited EXIT_FAILURE /\
  cerr (RBV.main w)
  = ("[Error]" ++ tab ++ "Cannot read PET input file: " ++ RBV.petfile cmd
     ++ endl)%string /\
  cerr (RBV.main w) = cerr (RBV.main (unreadable_pet w)).
Proof.
  intros Hcmd Hmask Hpet Hgtm.
  unfold RBV.main. simpl. rewrite Hcmd, Hmask. simpl. rewrite Hpet, Hgtm.
  repeat split.
Qed.

Lemma gtm_failure_example :
  status (RBV.main gtm_throws_world) = Exited EXIT_FAILURE /\
  cerr (RBV.main gtm_throws_world)
  = ("[Error]" ++ tab ++ "Cannot read PET input file: " ++ "pet.nii"
     ++ endl)%string /\
  cerr (RBV.main gtm_throws_world)
  = cerr (RBV.main (unreadable_pet gtm_throws_world)).
Proof.
  apply (gtm_failure_is_reported_as_unreadable_pet gtm_throws_world
           (rbv_command (6, 6, 6)) [[1; 0]] (2, 2, 2) [5; 3]);
    reflexivity.
Defined.

End Runs.

(* ================================================================= *)
(** ** The round trip without blur *)

Section RoundTrip.
Import ITK VNL Driver Spec Scenario.

Lemma variance_of_zero_FWHM (spacing : VectorType) :
  RBV.variance (0, 0, 0) spacing = (0, 0, 0).
Proof.
  destruct spacing as [[sx sy] sz]. unfold RBV.variance, FWHM_to_sigma.
  assert (H : forall c s, (0 / c / s) ^ 2 = 0) by (intros; unfold Rdiv; ring).
  now rewrite !H.
Qed.

(** C8 (as amended).  Let the PSF variance be 0 and the blur of variance 0
    change nothing, let the GTM be the one of section 4.1, and let the mask
    be binary, with K >= 1 regions that share no voxel and are not empty, on
    the grid of the activity volume.  Then the GTM is the identity matrix,
    the corrected means are the observed means, and the run writes a volume
    that equals the activity volume at every voxel where the synthetic
    volume is not zero.  Where the synthetic volume is zero the written
    value is the activity times the value of ITK's divide functor for a
    zero divisor. *)
Theorem zero_psf_round_trip (w : RBV.World) cmd mask vVoxelSize pet :
  RBV.command_Parse w = Some cmd ->
  RBV.maskReader_Update w (RBV.maskfile cmd) = Some mask ->
  RBV.petReader_Update w (RBV.petfile cmd) = Some (vVoxelSize, pet) ->
  RBV.variance (RBV.FWHM cmd) vVoxelSize = (0, 0, 0) ->
  (forall img, RBV.DiscreteGaussianImageFilter w (0, 0, 0) img = img) ->
  RBV.gtmFilter_Update w
    = GTMFilter.Update (RBV.DiscreteGaussianImageFilter w) ->
  (1 <= length mask)%nat ->
  on_grid (length pet) mask ->
  binary mask -> disjoint mask -> no_empty_region mask ->
  (forall img, RBV.petWriter_Update w (RBV.outputfile cmd) img = true) ->
  exists observed synthetic image,
    RBV.gtmFilter_Update w mask (0, 0, 0)
      = Some (identity (length mask), map GetSum mask) /\
    RBV.regional_means pet mask (map GetSum mask) (length mask)
      = Returns observed /\
    vnl_matrix_inverse_mul (RBV.svd_rank_deficient w)
                           (identity (length mask)) observed = observed /\
    RBV.getSyntheticPET mask observed = Returns (Some synthetic) /\
    status (RBV.main w) = Exited EXIT_SUCCESS /\
    written (RBV.main w) = Some (RBV.outputfile cmd, image) /\
    length image = length pet /\
    forall voxel, (voxel < length pet)%nat ->
      (nth voxel synthetic 0 <> 0 -> nth voxel image 0 = nth voxel pet 0) /\
      (nth voxel synthetic 0 = 0 ->
       nth voxel image 0 = nth voxel pet 0 * float_max).
Proof. exact (zero_psf_run w cmd mask vVoxelSize pet). Qed.

Lemma two_voxel_masks_are_binary :
  binary [[1; 0]; [0; 1]] /\ binary [[1; 0]].
Proof.
  split; repeat (apply Forall_cons || apply Forall_nil); auto.
Qed.

Lemma two_voxel_masks_are_disjoint :
  disjoint [[1; 0]; [0; 1]] /\ disjoint [[1; 0]].
Proof.
  split; intros i j v Hij; unfold indicator;
    destruct i as [|[|i]], j as [|[|j]]; try (now contradiction Hij);
    destruct v as [|[|v]]; simpl;
    repeat match goal with
           | |- context [match ?k with O => _ | S _ => _ end] => destruct k
           end;
    simpl; lra.
Qed.

Lemma two_voxel_masks_have_no_empty_region :
  no_empty_region [[1; 0]; [0; 1]] /\ no_empty_region [[1; 0]].
Proof.
  split; repeat (apply Forall_cons || apply Forall_nil);
    unfold GetSum; simpl; lra.
Qed.

(** Two regions of one voxel each, no PSF. *)
Lemma zero_psf_two_regions :
  exists observed synthetic image,
    RBV.gtmFilter_Update zero_psf_world [[1; 0]; [0; 1]] (0, 0, 0)
      = Some (identity 2, map GetSum [[1; 0]; [0; 1]]) /\
    RBV.regional_means [5; 3] [[1; 0]; [0; 1]]
                       (map GetSum [[1; 0]; [0; 1]]) 2
      = Returns observed /\
    vnl_matrix_inverse_mul keep (identity 2) observed = observed /\
    RBV.getSyntheticPET [[1; 0]; [0; 1]] observed
      = Returns (Some synthetic) /\
    status (RBV.main zero_psf_world) = Exited EXIT_SUCCESS /\
    written (RBV.main zero_psf_world) = Some ("out.nii"%string, image) /\
    length image = 2%nat /\
    forall voxel, (voxel < 2)%nat ->
      (nth voxel synthetic 0 <> 0 -> nth voxel image 0 = nth voxel [5; 3] 0) /\
      (nth voxel synthetic 0 = 0 ->
       nth voxel image 0 = nth voxel [5; 3] 0 * float_max).
Proof.
  apply (zero_psf_round_trip zero_psf_world (rbv_command (0, 0, 0))
           [[1; 0]; [0; 1]] (2, 2, 2) [5; 3]); try reflexivity.
  - apply variance_of_zero_FWHM.
  - simpl; lia.
  - repeat constructor.
  - apply two_voxel_masks_are_binary.
  - apply two_voxel_masks_are_disjoint.
  - apply two_voxel_masks_have_no_empty_region.
Defined.

(** C8, three masks without PSF.  A fuzzy region and two regions that share
    their voxel give a GTM that is not the identity.  A binary region that
    leaves a voxel outside gives the identity, and the run writes, at the
    voxel outside, the activity 3 times the largest float. *)
Lemma zero_psf_is_no_round_trip :
  (exists gtm sums,
     GTMFilter.Update no_blur [[1/2; 1/2]] (0, 0, 0) = Some (gtm, sums) /\
     gtm <> identity 1) /\
  (exists gtm sums,
     GTMFilter.Update no_blur [[1]; [1]] (0, 0, 0) = Some (gtm, sums) /\
     gtm <> identity 2) /\
  forall rank_deficient,
    exists image,
      written (RBV.main (background_world rank_deficient))
        = Some ("out.nii"%string, image) /\
      nth 1 image 0 = 3 * float_max /\
      nth 1 image 0 <> nth 1 [5; 3] 0.
Proof.
  split; [|split].
  - eexists _, _. split; [reflexivity|].
    unfold no_blur, GetSum, pixelwise, Mult, identity; simpl.
    intros H. injection H as H. lra.
  - eexists _, _. split; [reflexivity|].
    unfold no_blur, GetSum, pixelwise, Mult, identity; simpl.
    intros H. injection H as _ H _. lra.
  - intros rd.
    destruct (zero_psf_run (background_world rd) (rbv_command (0, 0, 0))
                [[1; 0]] (2, 2, 2) [5; 3])
      as (observed & synthetic & image & _ & Hobs & _ & Hsyn & _ & Hw & _ & Hv);
      try reflexivity.
    + apply variance_of_zero_FWHM.
    + repeat constructor.
    + apply two_voxel_masks_are_binary.
    + apply two_voxel_masks_are_disjoint.
    + apply two_voxel_masks_have_no_empty_region.
    + injection Hobs as <-.
      injection Hsyn as <-.
      exists image. split; [exact Hw|].
      destruct (Hv 1%nat ltac:(simpl; lia)) as [_ Hzero].
      assert (Hout : nth 1 image 0 = 3 * float_max).
      { apply Hzero. unfold MultiplyByConstant, Mult; simpl. lra. }
      split; [exact Hout|]. rewrite Hout. simpl.
      assert (Hmax := float_max_large). lra.
Qed.

End RoundTrip.

(* ================================================================= *)
(** ** The exit code and the written file *)

Section ExitCode.
Import ITK VNL Driver.

(** X2.  A run of RBV exits with code 0 exactly when the writer has produced the
    output file, and then it has printed no error. *)
Theorem rbv_exit_code_zero_iff_written (w : RBV.World) :
  (status (RBV.main w) = Exited EXIT_SUCCESS <->
   exists file image, written (RBV.main w) = Some (file, image)) /\
  (status (RBV.main w) = Exited EXIT_SUCCESS ->
   cerr (RBV.main w) = EmptyString).
Proof.
  unfold RBV.main, RBV.correct.
  destruct (RBV.command_Parse w) as [cmd|]; simpl.
  2: { split; [split; [discriminate|intros (f & i & H); discriminate H]
              |discriminate]. }
  destruct (RBV.maskReader_Update w _) as [mask|]; simpl.
  2: { split; [split; [discriminate|intros (f & i & H); discriminate H]
              |discriminate]. }
  destruct (RBV.petReader_Update w _) as [[spacing pet]|]; simpl.
  2: { split; [split; [discriminate|intros (f & i & H); discriminate H]
              |discriminate]. }
  destruct (RBV.gtmFilter_Update w _ _) as [[gtm sums]|]; simpl.
  2: { split; [split; [discriminate|intros (f & i & H); discriminate H]
              |discriminate]. }
  destruct (RBV.regional_means _ _ _ _) as [observed|e]; simpl.
  2: { split; [split; [discriminate|intros (f & i & H); discriminate H]
              |discriminate]. }
  destruct (RBV.getSyntheticPET _ _) as [synthetic|e]; simpl.
  2: { split; [split; [discriminate|intros (f & i & H); discriminate H]
              |discriminate]. }
  destruct (RBV.getRBVImage _ _ _) as [image|e]; simpl.
  2: { split; [split; [discriminate|intros (f & i & H); discriminate H]
              |discriminate]. }
  destruct (RBV.petWriter_Update _ _ _); simpl.
  - split; [split; eauto|reflexivity].
  - split; [split; [discriminate|intros (f & i & H); discriminate H]
           |discriminate].
Qed.

End ExitCode.

(* ================================================================= *)
(** ** More on the two [main] functions *)

Section Mains.
Import ITK VNL Driver Spec Scenario Cases.

(** *** IterativeYang.cxx *)

(** X3.  A run of Iterative Yang ends with exit code 0 or 1.  It exits with 0
    exactly when the writer has produced a file, and then nothing went to
    [std::cerr].  The file written is the command line's output file and
    holds the image the filter returned for the PET image, the mask, the
    variance, the iteration count and the debug flag of the run. *)
Theorem iterative_yang_exit_code_and_output (w : IterativeYang.World) :
  (status (IterativeYang.main w) = Exited EXIT_SUCCESS \/
   status (IterativeYang.main w) = Exited EXIT_FAILURE) /\
  (status (IterativeYang.main w) = Exited EXIT_SUCCESS <->
   exists file image,
     written (IterativeYang.main w) = Some (file, image)) /\
  (status (IterativeYang.main w) = Exited EXIT_SUCCESS ->
   cerr (IterativeYang.main w) = EmptyString) /\
  (forall file image,
     written (IterativeYang.main w) = Some (file, image) ->
     exists cmd mask vVoxelSize pet,
       IterativeYang.command_Parse w = Some cmd /\
       IterativeYang.maskReader_Update w (IterativeYang.maskfile cmd)
         = Some mask /\
       IterativeYang.petReader_Update w (IterativeYang.petfile cmd)
         = Some (vVoxelSize, pet) /\
       file = IterativeYang.outputfile cmd /\
       IterativeYang.iyFilter_Update w pet mask
         (IterativeYang.variance (IterativeYang.FWHM cmd) vVoxelSize)
         (IterativeYang.Iterations cmd) (IterativeYang.debug cmd)
       = inl image).
Proof.
  unfold IterativeYang.main.
  destruct (IterativeYang.command_Parse w) as [cmd|]; simpl.
  2: { repeat split; auto; try discriminate;
       intros; repeat match goal with H : exists _, _ |- _ => destruct H end;
       discriminate. }
  destruct (IterativeYang.maskReader_Update w _) as [mask|] eqn:Hmask; simpl.
  2: { repeat split; auto; try discriminate;
       intros; repeat match goal with H : exists _, _ |- _ => destruct H end;
       discriminate. }
  destruct (IterativeYang.petReader_Update w _) as [[spacing pet]|] eqn:Hpet;
    simpl.
  2: { repeat split; auto; try discriminate;
       intros; repeat match goal with H : exists _, _ |- _ => destruct H end;
       discriminate. }
  destruct (IterativeYang.iyFilter_Update w _ _ _ _ _) as [image|err] eqn:Hiy;
    simpl.
  2: { repeat split; auto; try discriminate;
       intros; repeat match goal with H : exists _, _ |- _ => destruct H end;
       discriminate. }
  destruct (IterativeYang.petWriter_Update w _ _); simpl.
  - repeat split; auto; eauto.
    intros file image' H. injection H as <- <-.
    exists cmd, mask, spacing, pet. auto.
  - repeat split; auto; try discriminate;
      intros; repeat match goal with H : exists _, _ |- _ => destruct H end;
      discriminate.
Qed.

(** X4.  What [std::cerr] shows after a run of Iterative Yang tells the step at
    which the run stopped: two runs, of whatever files and filters, that
    print the same error have gone through the same number of steps. *)
Theorem iterative_yang_error_tells_stage (w1 w2 : IterativeYang.World) :
  cerr (IterativeYang.main w1) = cerr (IterativeYang.main w2) ->
  cerr (IterativeYang.main w1) <> EmptyString ->
  length (trace (IterativeYang.main w1))
  = length (trace (IterativeYang.main w2)).
Proof.
  unfold IterativeYang.main.
  destruct (IterativeYang.command_Parse w1) as [cmd1|]; simpl;
    [|intros _ H; now contradiction H].
  destruct (IterativeYang.maskReader_Update w1 _) as [mask1|];
  [destruct (IterativeYang.petReader_Update w1 _) as [[spacing1 pet1]|];
   [destruct (IterativeYang.iyFilter_Update w1 _ _ _ _ _) as [image1|err1];
    [destruct (IterativeYang.petWriter_Update w1 _ _)|]|]|];
  simpl; try (intros _ H; now contradiction H);
  (destruct (IterativeYang.command_Parse w2) as [cmd2|]; simpl;
   [|discriminate]);
  (destruct (IterativeYang.maskReader_Update w2 _) as [mask2|];
   [destruct (IterativeYang.petReader_Update w2 _) as [[spacing2 pet2]|];
    [destruct (IterativeYang.iyFilter_Update w2 _ _ _ _ _) as [image2|err2];
     [destruct (IterativeYang.petWriter_Update w2 _ _)|]|]|]);
  simpl; intros Heq _; try reflexivity; discriminate Heq.
Qed.

(** Two runs that cannot read the mask, with different filters. *)
Lemma iterative_yang_unreadable_mask_twice :
  length (trace (IterativeYang.main (iy_world_with None (inl [5; 3]))))
  = length (trace (IterativeYang.main
                     (iy_world_with None (inr "no region"%string)))).
Proof.
  apply iterative_yang_error_tells_stage.
  - reflexivity.
  - discriminate.
Defined.

End Mains.

(* ================================================================= *)
(** ** More on RBV's [main] *)

Section RBVMain.
Import ITK VNL Driver Spec Scenario Cases.

Lemma getRBVImage_length (origPET : PETImageType) (syntheticPET : Pointer)
    (pBlurFilter : PETImageType -> PETImageType) (image : PETImageType) :
  RBV.getRBVImage origPET syntheticPET pBlurFilter = Returns image ->
  length image = length origPET.
Proof.
  unfold RBV.getRBVImage.
  destruct syntheticPET as [synthetic|]; simpl; [|discriminate].
  destruct (DivideFilter synthetic _) as [factors|e]; simpl; [|discriminate].
  unfold MultiplyFilter, BinaryFunctorImageFilter.
  destruct (Nat.eqb_spec (length origPET) (length factors)) as [Hl|];
    [|discriminate].
  intros H; injection H as <-. now apply length_pixelwise.
Qed.

(** X5.  Whenever a run of RBV writes a file, it is the command line's output
    file, and the image in it has as many voxels as the PET image that was
    read. *)
Theorem rbv_output_on_pet_grid (w : RBV.World) file image :
  written (RBV.main w) = Some (file, image) ->
  exists cmd vVoxelSize pet,
    RBV.command_Parse w = Some cmd /\
    RBV.petReader_Update w (RBV.petfile cmd) = Some (vVoxelSize, pet) /\
    file = RBV.outputfile cmd /\
    length image = length pet.
Proof.
  unfold RBV.main, RBV.correct.
  destruct (RBV.command_Parse w) as [cmd|]; simpl; [|discriminate].
  destruct (RBV.maskReader_Update w _) as [mask|]; simpl; [|discriminate].
  destruct (RBV.petReader_Update w _) as [[spacing pet]|] eqn:Hpet; simpl;
    [|discriminate].
  destruct (RBV.gtmFilter_Update w _ _) as [[gtm sums]|]; simpl;
    [|discriminate].
  destruct (RBV.regional_means _ _ _ _) as [observed|e]; simpl;
    [|discriminate].
  destruct (RBV.getSyntheticPET _ _) as [synthetic|e]; simpl; [|discriminate].
  destruct (RBV.getRBVImage _ _ _) as [imageRBV|e] eqn:Hrbv; simpl;
    [|discriminate].
  destruct (RBV.petWriter_Update _ _ _); simpl; [|discriminate].
  intros H; injection H as <- <-.
  exists cmd, spacing, pet. repeat split; trivial.
  now apply getRBVImage_length in Hrbv.
Qed.

Lemma rbv_output_of_two_voxels :
  exists image,
    written (RBV.main volume_mask_world) = Some ("out.nii"%string, image) /\
    length image = 2%nat.
Proof.
  destruct (main_completes volume_mask_world (rbv_command (6, 6, 6))
              [[1; 1]] (2, 2, 2) [5; 3] [[1]] [2])
    as (image & Hmain); try reflexivity.
  - repeat constructor.
  - exists image.
    assert (Hw : written (RBV.main volume_mask_world)
                 = Some ("out.nii"%string, image)) by (now rewrite Hmain).
    split; [exact Hw|].
    destruct (rbv_output_on_pet_grid volume_mask_world _ _ Hw)
      as (cmd & spacing & pet & Hcmd & Hpet & _ & Hl).
    injection Hcmd as <-. injection Hpet as _ <-. exact Hl.
Defined.

(** X6.  A run of RBV ends through an exception that nothing catches exactly when
    both files are read, the GTM filter returns, and one of the three steps
    after it throws: the regional means, the synthetic image or the
    correction.  Such a run prints nothing of its own on [std::cerr] and
    writes no file. *)
Theorem rbv_uncaught_exceptions (w : RBV.World) (e : ExceptionObject) :
  (status (RBV.main w) = Terminated e <->
   exists cmd mask vVoxelSize pet gtm sums,
     RBV.command_Parse w = Some cmd /\
     RBV.maskReader_Update w (RBV.maskfile cmd) = Some mask /\
     RBV.petReader_Update w (RBV.petfile cmd) = Some (vVoxelSize, pet) /\
     RBV.gtmFilter_Update w mask (RBV.variance (RBV.FWHM cmd) vVoxelSize)
       = Some (gtm, sums) /\
     (observed <- RBV.regional_means pet mask sums (length mask) ;;
      synthetic <- RBV.getSyntheticPET mask
                     (vnl_matrix_inverse_mul (RBV.svd_rank_deficient w)
                                             gtm observed) ;;
      RBV.getRBVImage pet synthetic
        (RBV.DiscreteGaussianImageFilter w
           (RBV.variance (RBV.FWHM cmd) vVoxelSize)))
     = Throws e) /\
  (status (RBV.main w) = Terminated e ->
   cerr (RBV.main w) = EmptyString /\ written (RBV.main w) = None).
Proof.
  unfold RBV.main, RBV.correct.
  destruct (RBV.command_Parse w) as [cmd|] eqn:Hcmd; simpl.
  2: { split; [split; [discriminate|]|discriminate].
       intros (c & m & s & p & g & u & H & _). discriminate H. }
  destruct (RBV.maskReader_Update w _) as [mask|] eqn:Hmask; simpl.
  2: { split; [split; [discriminate|]|discriminate].
       intros (c & m & s & p & g & u & H & H' & _).
       injection H as <-. rewrite Hmask in H'. discriminate H'. }
  destruct (RBV.petReader_Update w _) as [[spacing pet]|] eqn:Hpet; simpl.
  2: { split; [split; [discriminate|]|discriminate].
       intros (c & m & s & p & g & u & H & _ & H' & _).
       injection H as <-. rewrite Hpet in H'. discriminate H'. }
  destruct (RBV.gtmFilter_Update w _ _) as [[gtm sums]|] eqn:Hgtm; simpl.
  2: { split; [split; [discriminate|]|discriminate].
       intros (c & m & s & p & g & u & H & Hm & Hp & H' & _).
       injection H as <-. rewrite Hmask in Hm. injection Hm as <-.
       rewrite Hpet in Hp. injection Hp as <- <-.
       rewrite Hgtm in H'. discriminate H'. }
  assert (Hsame : forall c m s p g u,
            Some cmd = Some c ->
            RBV.maskReader_Update w (RBV.maskfile c) = Some m ->
            RBV.petReader_Update w (RBV.petfile c) = Some (s, p) ->
            RBV.gtmFilter_Update w m (RBV.variance (RBV.FWHM c) s)
              = Some (g, u) ->
            c = cmd /\ m = mask /\ s = spacing /\ p = pet /\
            g = gtm /\ u = sums).
  { intros c m s p g u H Hm Hp Hg.
    injection H as <-. rewrite Hmask in Hm. injection Hm as <-.
    rewrite Hpet in Hp. injection Hp as <- <-.
    rewrite Hgtm in Hg. injection Hg as <- <-. auto 10. }
  destruct (RBV.regional_means _ _ _ _) as [observed|e1] eqn:Hobs; simpl.
  2: { split; [split|].
       - intros H; injection H as <-.
         exists cmd, mask, spacing, pet, gtm, sums.
         rewrite Hobs. auto.
       - intros (c & m & s & p & g & u & H & Hm & Hp & Hg & Hsteps).
         destruct (Hsame _ _ _ _ _ _ H Hm Hp Hg)
           as (-> & -> & -> & -> & -> & ->).
         rewrite Hobs in Hsteps. simpl in Hsteps.
         now injection Hsteps as ->.
       - auto. }
  destruct (RBV.getSyntheticPET _ _) as [synthetic|e1] eqn:Hsyn; simpl.
  2: { split; [split|].
       - intros H; injection H as <-.
         exists cmd, mask, spacing, pet, gtm, sums.
         rewrite Hobs. simpl. rewrite Hsyn. auto.
       - intros (c & m & s & p & g & u & H & Hm & Hp & Hg & Hsteps).
         destruct (Hsame _ _ _ _ _ _ H Hm Hp Hg)
           as (-> & -> & -> & -> & -> & ->).
         rewrite Hobs in Hsteps. simpl in Hsteps. rewrite Hsyn in Hsteps.
         simpl in Hsteps. now injection Hsteps as ->.
       - auto. }
  destruct (RBV.getRBVImage _ _ _) as [image|e1] eqn:Hrbv; simpl.
  2: { split; [split|].
       - intros H; injection H as <-.
         exists cmd, mask, spacing, pet, gtm, sums.
         rewrite Hobs. simpl. rewrite Hsyn. simpl. rewrite Hrbv. auto.
       - intros (c & m & s & p & g & u & H & Hm & Hp & Hg & Hsteps).
         destruct (Hsame _ _ _ _ _ _ H Hm Hp Hg)
           as (-> & -> & -> & -> & -> & ->).
         rewrite Hobs in Hsteps. simpl in Hsteps. rewrite Hsyn in Hsteps.
         simpl in Hsteps. rewrite Hrbv in Hsteps.
         now injection Hsteps as ->.
       - auto. }
  split; [split|].
  - destruct (RBV.petWriter_Update _ _ _); discriminate.
  - intros (c & m & s & p & g & u & H & Hm & Hp & Hg & Hsteps).
    destruct (Hsame _ _ _ _ _ _ H Hm Hp Hg)
      as (-> & -> & -> & -> & -> & ->).
    rewrite Hobs in Hsteps. simpl in Hsteps. rewrite Hsyn in Hsteps.
    simpl in Hsteps. rewrite Hrbv in Hsteps. discriminate Hsteps.
  - destruct (RBV.petWriter_Update _ _ _); discriminate.
Qed.

(** A PET image of three voxels with a mask of two: the multiply filter of
    the first regional mean throws and nothing catches it. *)
Example other_grid_terminates :
  status (RBV.main other_grid_world) = Terminated SizeMismatch /\
  cerr (RBV.main other_grid_world) = EmptyString /\
  written (RBV.main other_grid_world) = None.
Proof. repeat split. Qed.

End RBVMain.

(* ================================================================= *)
(** ** The whole correction of a run *)

Section WholeRun.
Import ITK VNL Driver Spec Scenario Cases.



End WholeRun.

(* ================================================================= *)
(** ** More on getSyntheticPET *)

Section SyntheticImage.
Import ITK VNL Driver Spec Scenario Cases.

Lemma for_each_ext {S : Type} (f g : nat -> S -> Exceptional S)
    (indices : list nat) : forall (s : S),
  (forall i t, In i indices -> f i t = g i t) ->
  for_each f indices s = for_each g indices s.
Proof.
  induction indices as [|i rest IH]; intros s H; simpl; [reflexivity|].
  rewrite (H i s) by (now left).
  destruct (g i s) as [s'|e]; simpl; [|reflexivity].
  apply IH. intros j t Hj. apply H. now right.
Qed.

Lemma for_each_app {S : Type} (f : nat -> S -> Exceptional S)
    (l1 l2 : list nat) : forall (s : S),
  for_each f (l1 ++ l2) s = (s' <- for_each f l1 s ;; for_each f l2 s').
Proof.
  induction l1 as [|i l1 IH]; intros s; simpl; [reflexivity|].
  destruct (f i s) as [s'|e]; simpl; [apply IH|reflexivity].
Qed.

(** X8.  [getSyntheticPET] runs over as many regions as there are means: the
    regions of the mask beyond that number have no effect on what it
    returns. *)
Theorem synthetic_ignores_regions_beyond_means (mask : MaskImageType)
    (vRegMeans : vnl_vector) :
  RBV.getSyntheticPET mask vRegMeans
  = RBV.getSyntheticPET (firstn (length vRegMeans) mask) vRegMeans.
Proof.
  unfold RBV.getSyntheticPET. f_equal.
  apply for_each_ext. intros i s Hi. apply in_seq in Hi.
  unfold RBV.add_region, ExtractFilter.
  rewrite nth_error_firstn.
  destruct (Nat.ltb_spec (i - 1) (length vRegMeans)); [reflexivity|lia].
Qed.

(** The first turns of the loop, one per region of the mask. *)
Lemma add_all_regions (mask : MaskImageType) (vRegMeans : vnl_vector)
    (n : nat) :
  on_grid n mask ->
  exists s,
    for_each (RBV.add_region mask vRegMeans) (seq 1 (length mask))
             {| RBV.addFilter_Output := None; RBV.imageResult := RBV.Null |}
    = Returns s.
Proof.
  intros Hgrid. destruct (length mask) as [|L] eqn:EL; simpl; [eauto|].
  unfold RBV.add_region at 1. simpl.
  rewrite ExtractFilter_returns by lia. simpl.
  set (first := MultiplyByConstant (nth 0 mask []) (get vRegMeans 0)).
  destruct (add_regions mask vRegMeans n Hgrid L 1
              {| RBV.addFilter_Output := None;
                 RBV.imageResult := RBV.Detached first |} first)
    as (s & img & Hrun & _); try reflexivity; try lia.
  - unfold first, MultiplyByConstant. rewrite length_map.
    apply (region_on_grid mask n Hgrid). lia.
  - intros v Hv. unfold first. rewrite nth_MultiplyByConstant. simpl.
    unfold term, indicator. lra.
  - eauto.
Qed.

(** X9.  With more means than the mask has regions, [getSyntheticPET] throws: the
    extraction of the first region that does not exist is refused. *)
Theorem synthetic_throws_for_too_many_means (n : nat) (mask : MaskImageType)
    (vRegMeans : vnl_vector) :
  on_grid n mask ->
  (length mask < length vRegMeans)%nat ->
  RBV.getSyntheticPET mask vRegMeans = Throws InvalidRequestedRegion.
Proof.
  intros Hgrid Hlt. unfold RBV.getSyntheticPET.
  replace (length vRegMeans)
    with (length mask + S (length vRegMeans - length mask - 1))%nat by lia.
  rewrite seq_app, for_each_app.
  destruct (add_all_regions mask vRegMeans n Hgrid) as [s ->].
  simpl. unfold RBV.add_region at 1, ExtractFilter.
  replace (S (length mask) - 1)%nat with (length mask) by lia.
  now rewrite (proj2 (nth_error_None mask (length mask)) (le_n _)).
Qed.

Lemma synthetic_throws_for_two_means :
  RBV.getSyntheticPET [[1; 0]] [7; 3] = Throws InvalidRequestedRegion.
Proof.
  apply (synthetic_throws_for_too_many_means 2 [[1; 0]] [7; 3]).
  - repeat constructor.
  - simpl; lia.
Defined.

(** *** Sums over the regions *)

Lemma sum_upto_ext (f g : nat -> R) (k : nat) :
  (forall j, (j < k)%nat -> f j = g j) -> sum_upto f k = sum_upto g k.
Proof.
  induction k as [|k IH]; intros H; simpl; [reflexivity|].
  rewrite IH, H by auto. reflexivity.
Qed.

Lemma sum_upto_combine (f g : nat -> R) (c : R) (k : nat) :
  sum_upto (fun j => f j + c * g j) k = sum_upto f k + c * sum_upto g k.
Proof.
  induction k as [|k IH]; simpl; [lra|]. rewrite IH. lra.
Qed.

Lemma sum_upto_single (f : nat -> R) (k j : nat) :
  (j < k)%nat -> (forall i, (i < k)%nat -> i <> j -> f i = 0) ->
  sum_upto f k = f j.
Proof.
  induction k as [|k IH]; intros Hj H; [lia|]. simpl.
  destruct (Nat.eq_dec j k) as [->|Hne].
  - rewrite sum_upto_zero; [lra|]. intros i Hi. apply H; lia.
  - rewrite IH, (H k) by (auto; lia). lra.
Qed.

(** X10.  For regions that share no voxel, [getSyntheticPET] paints: a voxel where
    the indicator of region j is 1 gets the mean of region j. *)
Theorem synthetic_paints_disjoint_regions (n : nat) (mask : MaskImageType)
    (vRegMeans : vnl_vector) :
  on_grid n mask -> length mask = length vRegMeans ->
  (1 <= length mask)%nat -> disjoint mask ->
  exists synthetic,
    RBV.getSyntheticPET mask vRegMeans = Returns (Some synthetic) /\
    forall voxel j, (voxel < n)%nat -> (j < length mask)%nat ->
      indicator mask j voxel = 1 ->
      nth voxel synthetic 0 = get vRegMeans j.
Proof.
  intros Hgrid Hlen HK Hdis.
  destruct (getSyntheticPET_blend mask vRegMeans n Hgrid)
    as (synthetic & Hsyn & _ & Hv); [lia|exact Hlen|].
  exists synthetic. split; [exact Hsyn|].
  intros voxel j Hvoxel Hj Hin. rewrite Hv by exact Hvoxel.
  unfold blend. rewrite (sum_upto_single _ _ j) by
    (try lia; intros i Hi Hne; unfold term;
     assert (H0 := Hdis i j voxel Hne); rewrite Hin in H0;
     replace (indicator mask i voxel) with 0 by lra; lra).
  unfold term. rewrite Hin. lra.
Qed.

Lemma synthetic_paints_two_regions :
  exists synthetic,
    RBV.getSyntheticPET [[1; 0]; [0; 1]] [7; 3] = Returns (Some synthetic) /\
    forall voxel j, (voxel < 2)%nat -> (j < 2)%nat ->
      indicator [[1; 0]; [0; 1]] j voxel = 1 ->
      nth voxel synthetic 0 = get [7; 3] j.
Proof.
  apply (synthetic_paints_disjoint_regions 2 [[1; 0]; [0; 1]] [7; 3]).
  - repeat constructor.
  - reflexivity.
  - simpl; lia.
  - apply two_voxel_masks_are_disjoint.
Defined.

(** X11.  [getSyntheticPET] is linear in the means: for the means a + c * b it
    returns, voxel by voxel, the image of a plus c times the image of b. *)
Theorem synthetic_is_linear_in_means (n : nat) (mask : MaskImageType)
    (a b : vnl_vector) (c : R) :
  on_grid n mask -> (1 <= length mask)%nat ->
  length a = length mask -> length b = length mask ->
  exists image_a image_b image,
    RBV.getSyntheticPET mask a = Returns (Some image_a) /\
    RBV.getSyntheticPET mask b = Returns (Some image_b) /\
    RBV.getSyntheticPET mask (pixelwise (fun x y => x + c * y) a b)
      = Returns (Some image) /\
    forall voxel, (voxel < n)%nat ->
      nth voxel image 0 = nth voxel image_a 0 + c * nth voxel image_b 0.
Proof.
  intros Hgrid HK Ha Hb.
  assert (Hab : length (pixelwise (fun x y => x + c * y) a b) = length mask)
    by (rewrite length_pixelwise; lia).
  destruct (getSyntheticPET_blend mask a n Hgrid)
    as (image_a & Hsa & _ & Hva); [lia|lia|].
  destruct (getSyntheticPET_blend mask b n Hgrid)
    as (image_b & Hsb & _ & Hvb); [lia|lia|].
  destruct (getSyntheticPET_blend mask
              (pixelwise (fun x y => x + c * y) a b) n Hgrid)
    as (image & Hs & _ & Hv); [rewrite Hab; lia|symmetry; exact Hab|].
  exists image_a, image_b, image. repeat split; trivial.
  intros voxel Hvoxel. rewrite Hv, Hva, Hvb by exact Hvoxel.
  unfold blend. rewrite Hab, Ha, Hb, <- sum_upto_combine.
  apply sum_upto_ext. intros j Hj. unfold term, get.
  rewrite nth_pixelwise by lia. lra.
Qed.

Lemma synthetic_is_linear_for_two_regions :
  exists image_a image_b image,
    RBV.getSyntheticPET [[1; 0]; [0; 1]] [7; 3] = Returns (Some image_a) /\
    RBV.getSyntheticPET [[1; 0]; [0; 1]] [1; 2] = Returns (Some image_b) /\
    RBV.getSyntheticPET [[1; 0]; [0; 1]]
      (pixelwise (fun x y => x + 10 * y) [7; 3] [1; 2])
      = Returns (Some image) /\
    forall voxel, (voxel < 2)%nat ->
      nth voxel image 0 = nth voxel image_a 0 + 10 * nth voxel image_b 0.
Proof.
  apply (synthetic_is_linear_in_means 2 [[1; 0]; [0; 1]] [7; 3] [1; 2] 10).
  - repeat constructor.
  - simpl; lia.
  - reflexivity.
  - reflexivity.
Defined.

End SyntheticImage.

(* ================================================================= *)
(** ** More on getRBVImage, the regional means and the variance *)

Section Correction.
Import ITK VNL Driver Spec Scenario Cases.

(** X12.  [getRBVImage] leaves a voxel without activity at 0, and returns the
    original value at every voxel where the blur does not change a non-zero
    synthetic value. *)
Theorem rbv_image_fixed_points (origPET synthetic : PETImageType)
    (pBlurFilter : PETImageType -> PETImageType) :
  length synthetic = length origPET ->
  length (pBlurFilter synthetic) = length synthetic ->
  exists corrected,
    RBV.getRBVImage origPET (Some synthetic) pBlurFilter = Returns corrected /\
    forall voxel, (voxel < length origPET)%nat ->
      (nth voxel origPET 0 = 0 -> nth voxel corrected 0 = 0) /\
      (nth voxel (pBlurFilter synthetic) 0 = nth voxel synthetic 0 ->
       nth voxel synthetic 0 <> 0 ->
       nth voxel corrected 0 = nth voxel origPET 0).
Proof.
  intros Hs Hb. eexists. split; [now apply getRBVImage_returns|].
  intros voxel Hlt.
  rewrite nth_pixelwise by (rewrite ?length_pixelwise; lia).
  rewrite nth_pixelwise by lia. unfold Mult. split.
  - intros ->. lra.
  - intros -> Hnz. rewrite Div_nonzero by exact Hnz. field. exact Hnz.
Qed.

Lemma rbv_image_fixed_points_of_two_voxels :
  exists corrected,
    RBV.getRBVImage [0; 3] (Some [4; 2]) (fun _ => [2; 2])
      = Returns corrected /\
    forall voxel, (voxel < 2)%nat ->
      (nth voxel [0; 3] 0 = 0 -> nth voxel corrected 0 = 0) /\
      (nth voxel [2; 2] 0 = nth voxel [4; 2] 0 ->
       nth voxel [4; 2] 0 <> 0 ->
       nth voxel corrected 0 = nth voxel [0; 3] 0).
Proof.
  apply (rbv_image_fixed_points [0; 3] [4; 2] (fun _ => [2; 2]));
    reflexivity.
Defined.

(** *** The scale of the corrected means *)

Lemma Div_scale (c a b : R) : c <> 0 -> Div (c * a) (c * b) = Div a b.
Proof.
  intros Hc. unfold Div.
  destruct (Req_dec_T b 0) as [->|Hb].
  - rewrite Rmult_0_r. destruct (Req_dec_T 0 0); [reflexivity|contradiction].
  - destruct (Req_dec_T (c * b) 0) as [H0|_].
    + exfalso. apply Rmult_integral in H0. tauto.
    + field. auto.
Qed.

Lemma pixelwise_Div_scale (c : R) : forall (a b : PETImageType),
  c <> 0 -> pixelwise Div (scale c a) (scale c b) = pixelwise Div a b.
Proof.
  intros a b Hc. revert b; induction a as [|x a IH]; intros [|y b];
    try reflexivity.
  unfold pixelwise in *; simpl. now rewrite Div_scale, IH.
Qed.

Lemma get_scale (c : R) (v : vnl_vector) (j : nat) :
  get (scale c v) j = c * get v j.
Proof.
  unfold get, scale. revert j; induction v as [|x v IH]; intros [|j]; simpl;
    auto; lra.
Qed.

(** X13.  Only the proportions of the regional means count: when the blur commutes
    with the product by a constant, the corrected image for the means times
    c, c not zero, is the corrected image for the means. *)
Theorem rbv_correction_ignores_scale (n : nat) (mask : MaskImageType)
    (vRegMeans : vnl_vector) (origPET : PETImageType)
    (pBlurFilter : PETImageType -> PETImageType) (c : R) :
  c <> 0 ->
  on_grid n mask -> (1 <= length mask)%nat ->
  length vRegMeans = length mask ->
  (forall img, pBlurFilter (scale c img) = scale c (pBlurFilter img)) ->
  (synthetic <- RBV.getSyntheticPET mask (scale c vRegMeans) ;;
   RBV.getRBVImage origPET synthetic pBlurFilter)
  = (synthetic <- RBV.getSyntheticPET mask vRegMeans ;;
     RBV.getRBVImage origPET synthetic pBlurFilter).
Proof.
  intros Hc Hgrid HK Hlen Hblur.
  assert (Hlsc : length (scale c vRegMeans) = length mask)
    by (unfold scale; rewrite length_map; exact Hlen).
  destruct (getSyntheticPET_blend mask vRegMeans n Hgrid)
    as (synthetic & Hsyn & Hl & Hv); [lia|lia|].
  destruct (getSyntheticPET_blend mask (scale c vRegMeans) n Hgrid)
    as (scaled & Hsc & Hl' & Hv'); [lia|lia|].
  assert (Escaled : scaled = scale c synthetic).
  { apply (nth_ext _ _ 0 0).
    - unfold scale. rewrite length_map. lia.
    - intros v Hlt. rewrite Hl' in Hlt.
      change (nth v (scale c synthetic) 0) with (get (scale c synthetic) v).
      rewrite get_scale. unfold get. rewrite Hv', Hv by exact Hlt.
      unfold blend. rewrite Hlsc, Hlen.
      replace (c * sum_upto (term mask vRegMeans v) (length mask))
        with (sum_upto (fun _ => 0) (length mask)
              + c * sum_upto (term mask vRegMeans v) (length mask))
        by (rewrite (sum_upto_zero (fun _ => 0)); [lra|reflexivity]).
      rewrite <- sum_upto_combine. apply sum_upto_ext. intros j Hj.
      unfold term. rewrite get_scale. lra. }
  rewrite Hsyn, Hsc, Escaled. simpl.
  unfold RBV.getRBVImage. simpl.
  rewrite Hblur. unfold DivideFilter, BinaryFunctorImageFilter.
  unfold scale at 1 2. rewrite !length_map.
  fold (scale c synthetic). fold (scale c (pBlurFilter synthetic)).
  now rewrite pixelwise_Div_scale.
Qed.

Lemma halve_commutes_with_scale (c : R) (img : PETImageType) :
  halve (scale c img) = scale c (halve img).
Proof.
  unfold halve, MultiplyByConstant, Mult, scale. rewrite !map_map.
  apply map_ext. intros x. lra.
Qed.

Lemma rbv_correction_ignores_factor_10 :
  (synthetic <- RBV.getSyntheticPET [[1; 0]; [0; 1]] (scale 10 [7; 3]) ;;
   RBV.getRBVImage [5; 3] synthetic halve)
  = (synthetic <- RBV.getSyntheticPET [[1; 0]; [0; 1]] [7; 3] ;;
     RBV.getRBVImage [5; 3] synthetic halve).
Proof.
  apply (rbv_correction_ignores_scale 2).
  - lra.
  - repeat constructor.
  - simpl; lia.
  - reflexivity.
  - apply halve_commutes_with_scale.
Defined.

(** *** The regional means of a uniform image *)

Lemma GetSum_uniform (c : R) : forall (region : PETImageType) (n : nat),
  length region = n ->
  GetSum (pixelwise Mult (repeat c n) region) = c * GetSum region.
Proof.
  induction region as [|x region IH]; intros [|n] Hn; simpl in Hn;
    try discriminate.
  - unfold GetSum; simpl. lra.
  - simpl repeat. unfold pixelwise; simpl.
    fold (pixelwise Mult (repeat c n) region).
    rewrite !GetSum_cons, (IH n) by lia. unfold Mult. lra.
Qed.

(** X14.  With the sum of each region's indicator as the region's sum, the
    regional means of an image that has the value c at every voxel are all
    c, for every mask without an empty region. *)
Theorem regional_means_of_uniform_image (n : nat) (mask : MaskImageType)
    (c : R) :
  on_grid n mask -> no_empty_region mask ->
  exists observed,
    RBV.regional_means (repeat c n) mask (map GetSum mask) (length mask)
      = Returns observed /\
    length observed = length mask /\
    forall j, (j < length mask)%nat -> get observed j = c.
Proof.
  intros Hgrid Hne.
  assert (Hgrid' : on_grid (length (repeat c n)) mask)
    by (now rewrite repeat_length).
  destruct (regional_means_returns (repeat c n) mask (map GetSum mask) Hgrid')
    as (observed & Hobs & Hl & Hv).
  exists observed. split; [exact Hobs|]. split; [exact Hl|].
  intros j Hj. unfold get at 1. rewrite Hv by exact Hj.
  unfold observed_mean, get.
  rewrite (nth_map_lt (A := PETImageType) GetSum mask j [] 0 Hj).
  rewrite GetSum_uniform by (apply (region_on_grid mask n Hgrid); exact Hj).
  unfold no_empty_region in Hne. rewrite Forall_forall in Hne.
  field. apply Hne, nth_In, Hj.
Qed.

Lemma regional_means_of_uniform_two_voxels :
  exists observed,
    RBV.regional_means (repeat 4 2) [[1; 0]; [0; 1]]
                       (map GetSum [[1; 0]; [0; 1]]) 2
      = Returns observed /\
    length observed = 2%nat /\
    forall j, (j < 2)%nat -> get observed j = 4.
Proof.
  apply (regional_means_of_uniform_image 2 [[1; 0]; [0; 1]] 4).
  - repeat constructor.
  - apply two_voxel_masks_have_no_empty_region.
Defined.

(** *** The variances of the two drivers *)

(** X15.  On voxels of non-zero size RBV's variance is, per axis, Iterative Yang's
    variance divided by the square of the voxel size; no component of either
    is negative. *)
Theorem rbv_variance_is_yang_variance_over_spacing (fx fy fz sx sy sz : R) :
  sx <> 0 -> sy <> 0 -> sz <> 0 ->
  let '(yx, yy, yz) := IterativeYang.variance (fx, fy, fz) (sx, sy, sz) in
  let '(rx, ry, rz) := RBV.variance (fx, fy, fz) (sx, sy, sz) in
  (rx = yx / sx ^ 2 /\ ry = yy / sy ^ 2 /\ rz = yz / sz ^ 2) /\
  (0 <= yx /\ 0 <= yy /\ 0 <= yz) /\
  (0 <= rx /\ 0 <= ry /\ 0 <= rz).
Proof.
  intros Hx Hy Hz. unfold IterativeYang.variance, RBV.variance, FWHM_to_sigma.
  assert (Hc := sqrt_2_ln_2_positive).
  set (c := 2 * sqrt (2 * ln 2)) in *.
  assert (Hsq : forall a s, s <> 0 -> (a / s) ^ 2 = a ^ 2 / s ^ 2)
    by (intros a s Hs; field; exact Hs).
  assert (Hpos : forall a, 0 <= a ^ 2) by (intros a; apply pow2_ge_0).
  repeat split; auto.
Qed.

Lemma variance_of_6mm_on_2mm_voxels :
  let '(yx, yy, yz) := IterativeYang.variance (6, 6, 6) (2, 2, 2) in
  let '(rx, ry, rz) := RBV.variance (6, 6, 6) (2, 2, 2) in
  (rx = yx / 2 ^ 2 /\ ry = yy / 2 ^ 2 /\ rz = yz / 2 ^ 2) /\
  (0 <= yx /\ 0 <= yy /\ 0 <= yz) /\
  (0 <= rx /\ 0 <= ry /\ 0 <= rz).
Proof.
  apply (rbv_variance_is_yang_variance_over_spacing 6 6 6 2 2 2); lra.
Defined.

End Correction.
